(** * napps-server: the identity, token, registry and artifact-store core

    A shallow embedding of [core/models.py], [api/users.py] and
    [napps_server/api/napps.py].  Python objects become records, the Redis
    connection [con] becomes an explicit store threaded through a state and
    exception monad, and the library calls the code relies on ([str], [int],
    [eval], [strptime], [rsplit], ...) are written out as functions.

    Part I holds the definitions, Part II the properties. *)

From Stdlib Require Import ZArith Ascii String List Lia.
From stdpp Require Import base decidable option list gmap strings pretty.

Local Open Scope string_scope.
Local Open Scope Z_scope.
Set Warnings "-clear-no-such-hyp".

(* ===================================================================== *)
(** * Part I: definitions *)
(* ===================================================================== *)

(** ** Exceptions and results *)

(** The exceptions of [core/exceptions.py] that the modelled code raises,
    and the built-in ones that escape from it. *)
Inductive exn :=
  | NappsEntryDoesNotExists
  | InvalidAuthor
  | InvalidNappMetaData
  | RepositoryNotReachable
  | TypeError
  | KeyError
  | IndexError
  | ValueError
  | AttributeError
  | SyntaxError
  | OSError
  | ReError.

Global Instance exn_eq_dec : EqDecision exn.
Proof. solve_decision. Defined.

(** A Python expression either yields a value or raises. *)
Inductive result (A : Type) :=
  | Return (a : A)
  | Raise (e : exn).
Global Arguments Return {A} a.
Global Arguments Raise {A} e.

Global Instance result_ret : MRet result := λ A a, Return a.
Global Instance result_bind : MBind result := λ A B f r,
  match r with
  | Return a => f a
  | Raise e => Raise e
  end.

(** ** [datetime] objects *)

(** A naive [datetime] object.  Its fields are within their ranges
    ([dt_valid]); the constructor refuses anything else. *)
Record datetime := mk_datetime {
  year : Z; month : Z; day : Z;
  hour : Z; minute : Z; second : Z; microsecond : Z
}.

Global Instance datetime_eq_dec : EqDecision datetime.
Proof. solve_decision. Defined.

Definition _is_leap (y : Z) : bool :=
  (y mod 4 =? 0) && (negb (y mod 100 =? 0) || (y mod 400 =? 0)).

Definition _days_in_month (y m : Z) : Z :=
  match m with
  | 2 => if _is_leap y then 29 else 28
  | 4 | 6 | 9 | 11 => 30
  | _ => 31
  end.

Definition dt_valid (d : datetime) : bool :=
  (1 <=? year d) && (year d <=? 9999) &&
  (1 <=? month d) && (month d <=? 12) &&
  (1 <=? day d) && (day d <=? _days_in_month (year d) (month d)) &&
  (0 <=? hour d) && (hour d <=? 23) &&
  (0 <=? minute d) && (minute d <=? 59) &&
  (0 <=? second d) && (second d <=? 59) &&
  (0 <=? microsecond d) && (microsecond d <=? 999999).

Definition _days_before_year (y : Z) : Z :=
  let y' := y - 1 in y' * 365 + y' / 4 - y' / 100 + y' / 400.

Definition _days_before_month (y m : Z) : Z :=
  match m with
  | 1 => 0 | 2 => 31 | 3 => 59 | 4 => 90 | 5 => 120 | 6 => 151 | 7 => 181
  | 8 => 212 | 9 => 243 | 10 => 273 | 11 => 304 | _ => 334
  end + (if (2 <? m) && _is_leap y then 1 else 0).

Definition _ymd2ord (y m d : Z) : Z :=
  _days_before_year y + _days_before_month y m + d.

(** The place of a [datetime] on the time line, in microseconds.  Two
    datetimes compare as their places do, and adding a [timedelta] moves the
    place by its length; a sum is kept as the place it denotes.  Python
    raises OverflowError for a sum outside [datetime.min] .. [datetime.max];
    that is not modelled (see [Token_expires_at_defined], which the
    statements about [is_valid] use). *)
Definition dt_micros (d : datetime) : Z :=
  (((_ymd2ord (year d) (month d) (day d) * 24 + hour d) * 60 + minute d) * 60
   + second d) * 1000000 + microsecond d.

(** ** Python values *)

#[warnings="-register-all"]
Inductive pyval :=
  | PNone
  | PBool (b : bool)
  | PInt (z : Z)
  | PStr (s : string)
  | PBytes (s : string)
  | PDatetime (d : datetime)
  | PList (l : list pyval).

(** Truth value of an object, as [if x:] and [not x] take it. *)
Definition py_truthy (v : pyval) : bool :=
  match v with
  | PNone => false
  | PBool b => b
  | PInt z => negb (z =? 0)
  | PStr s => negb (String.eqb s "")
  | PBytes s => negb (String.eqb s "")
  | PDatetime _ => true
  | PList l => match l with [] => false | _ => true end
  end.

(** Numbers: [bool] is a subclass of [int]. *)
Definition py_as_int (v : pyval) : option Z :=
  match v with
  | PBool b => Some (if b then 1 else 0)
  | PInt z => Some z
  | _ => None
  end.

(** [a == b]. *)
Fixpoint py_eqb (a b : pyval) : bool :=
  match a, b with
  | PNone, PNone => true
  | PStr s, PStr t => String.eqb s t
  | PBytes s, PBytes t => String.eqb s t
  | PDatetime d, PDatetime e => bool_decide (d = e)
  | PList xs, PList ys =>
      (fix go (xs ys : list pyval) : bool :=
         match xs, ys with
         | [], [] => true
         | x :: xs', y :: ys' => py_eqb x y && go xs' ys'
         | _, _ => false
         end) xs ys
  | _, _ =>
      match py_as_int a, py_as_int b with
      | Some x, Some y => x =? y
      | _, _ => false
      end
  end.

Definition str_gtb (s t : string) : bool :=
  match String.compare s t with Gt => true | _ => false end.

(** [a > b]: defined between numbers, between strings, between bytes,
    between datetimes and between lists; every other pairing raises
    TypeError. *)
Fixpoint py_gt (a b : pyval) : result bool :=
  match a, b with
  | PStr s, PStr t => Return (str_gtb s t)
  | PBytes s, PBytes t => Return (str_gtb s t)
  | PDatetime d, PDatetime e => Return (dt_micros e <? dt_micros d)
  | PList xs, PList ys =>
      (fix go (xs ys : list pyval) : result bool :=
         match xs, ys with
         | x :: xs', y :: ys' => if py_eqb x y then go xs' ys' else py_gt x y
         | _ :: _, [] => Return true
         | [], _ => Return false
         end) xs ys
  | _, _ =>
      match py_as_int a, py_as_int b with
      | Some x, Some y => Return (y <? x)
      | _, _ => Raise TypeError
      end
  end.

(** [s + v] with [s] a [str]: only another [str] can be concatenated. *)
Definition str_add (s : string) (v : pyval) : result string :=
  match v with
  | PStr t => Return (s +:+ t)
  | _ => Raise TypeError
  end.

(** ** Strings *)

(** [c in s] for a one-character [c]. *)
Fixpoint contains (c : ascii) (s : string) : bool :=
  match s with
  | "" => false
  | String a s' => if decide (a = c) then true else contains c s'
  end.

(** [s.rsplit(sep, 1)] for a one-character [sep]: cut at the last [sep]. *)
Fixpoint rsplit1 (sep : ascii) (s : string) : list string :=
  match s with
  | "" => [""]
  | String a s' =>
      match rsplit1 sep s' with
      | [t] => if decide (a = sep) then [""; t] else [String a t]
      | h :: rest => String a h :: rest
      | [] => []
      end
  end.

(** [l[i]]. *)
Definition py_index {A} (l : list A) (i : nat) : result A :=
  match l !! i with
  | Some x => Return x
  | None => Raise IndexError
  end.

(** [os.path.join(a, b)] on a POSIX host. *)
Definition os_path_join (a b : string) : string :=
  match b with
  | String "/" _ => b
  | _ =>
      if String.eqb a "" then b
      else match String.rev a with
           | String "/" _ => a +:+ b
           | _ => a +:+ "/" +:+ b
           end
  end.

(** ** [str] and [repr] *)

Definition char_code (c : ascii) : Z := Z.of_N (N_of_ascii c).

Definition digit (n : Z) : ascii :=
  match n with
  | 0 => "0" | 1 => "1" | 2 => "2" | 3 => "3" | 4 => "4"
  | 5 => "5" | 6 => "6" | 7 => "7" | 8 => "8" | _ => "9"
  end%char.

Definition hex_digit (n : Z) : ascii :=
  match n with
  | 10 => "a" | 11 => "b" | 12 => "c" | 13 => "d" | 14 => "e" | 15 => "f"
  | _ => digit n
  end%char.

(** One character of a [repr]: the quote in use and the backslash are
    escaped, tab, newline and return get their letter, the other control
    characters (and, in a [bytes] literal, everything from 0x7f up) are
    written [\xhh].  A [str] is held as its UTF-8 bytes, so text beyond ASCII
    passes through unchanged, as [repr] does for printable characters. *)
Definition repr_char (bytes_mode : bool) (quote c : ascii) : string :=
  let n := char_code c in
  if decide (c = quote ∨ c = "\"%char) then String "\" (String c "")
  else if decide (c = "009"%char) then "\t"
  else if decide (c = "010"%char) then "\n"
  else if decide (c = "013"%char) then "\r"
  else if (n <? 32) || (n =? 127) || (bytes_mode && (127 <? n)) then
    "\x" +:+ String (hex_digit (n / 16)) (String (hex_digit (n mod 16)) "")
  else String c "".

Fixpoint repr_chars (bytes_mode : bool) (quote : ascii) (s : string) : string :=
  match s with
  | "" => ""
  | String c s' => repr_char bytes_mode quote c +:+ repr_chars bytes_mode quote s'
  end.

(** Single quotes, unless the text has one and has no double quote. *)
Definition repr_quoted (bytes_mode : bool) (s : string) : string :=
  let quote :=
    if contains "'" s && negb (contains "034" s) then "034"%char else "'"%char in
  String quote (repr_chars bytes_mode quote s) +:+ String quote "".

(** [n] in [width] digits, zero-filled: ["%02d" % n] and the like. *)
Fixpoint zfill (width : nat) (n : Z) (tail : string) : string :=
  match width with
  | O => tail
  | S w => zfill w (n / 10) (String (digit (n mod 10)) tail)
  end.

(** [str(d)], that is [d.isoformat(sep=' ')]: the fraction is written only
    when [microsecond] is not zero. *)
Definition dt_str (d : datetime) : string :=
  zfill 4 (year d) (String "-" (zfill 2 (month d) (String "-" (zfill 2 (day d)
  (String " " (zfill 2 (hour d) (String ":" (zfill 2 (minute d) (String ":"
  (zfill 2 (second d)
     (if microsecond d =? 0 then "" else String "." (zfill 6 (microsecond d) "")))))))))))).

(** [repr(d)]: trailing zero seconds and microseconds are left out. *)
Definition dt_repr (d : datetime) : string :=
  "datetime.datetime(" +:+ pretty (year d) +:+ ", " +:+ pretty (month d) +:+ ", "
  +:+ pretty (day d) +:+ ", " +:+ pretty (hour d) +:+ ", " +:+ pretty (minute d)
  +:+ (if microsecond d =? 0
       then (if second d =? 0 then "" else ", " +:+ pretty (second d))
       else ", " +:+ pretty (second d) +:+ ", " +:+ pretty (microsecond d))
  +:+ ")".

Fixpoint py_repr (v : pyval) : string :=
  match v with
  | PNone => "None"
  | PBool true => "True"
  | PBool false => "False"
  | PInt z => pretty z
  | PStr s => repr_quoted false s
  | PBytes s => "b" +:+ repr_quoted true s
  | PDatetime d => dt_repr d
  | PList l =>
      "[" +:+
      (fix items (l : list pyval) : string :=
         match l with
         | [] => ""
         | x :: rest =>
             match rest with
             | [] => py_repr x
             | _ :: _ => py_repr x +:+ ", " +:+ items rest
             end
         end) l +:+ "]"
  end.

(** [str(v)], which is also what ["%s" % v] and ["{}".format(v)] insert. *)
Definition py_str (v : pyval) : string :=
  match v with
  | PStr s => s
  | PDatetime d => dt_str d
  | _ => py_repr v
  end.

(** ** Writing and reading a [datetime] *)

Definition digit_value (c : ascii) : option Z :=
  let n := char_code c in
  if (48 <=? n) && (n <=? 57) then Some (n - 48) else None.

(** Up to [n] leading digits of [s], most significant first, and the rest. *)
Fixpoint take_digits (n : nat) (s : string) : list Z * string :=
  match n, s with
  | S n', String c s' =>
      match digit_value c with
      | Some v => let '(ds, rest) := take_digits n' s' in (v :: ds, rest)
      | None => ([], s)
      end
  | _, _ => ([], s)
  end.

Definition digits_value (ds : list Z) : Z :=
  fold_left (λ acc v, acc * 10 + v) ds 0.

(** A numeric directive of [strptime]: one or two digits ([\d\d\d\d] for
    the year, one to six for the fraction) whose value the directive's
    pattern admits. *)
Definition directive (min_len max_len : nat) (lo hi : Z) (s : string)
    : option (list Z * string) :=
  let '(ds, rest) := take_digits max_len s in
  if (min_len <=? length ds)%nat && (lo <=? digits_value ds) && (digits_value ds <=? hi)
  then Some (ds, rest) else None.

Definition literal (c : ascii) (s : string) : option string :=
  match s with
  | String a s' => if decide (a = c) then Some s' else None
  | "" => None
  end.

(** What [\s] matches among single bytes. *)
Definition is_space (c : ascii) : bool :=
  let n := char_code c in
  ((9 <=? n) && (n <=? 13)) || ((28 <=? n) && (n <=? 32)).

Fixpoint skip_spaces (s : string) : string :=
  match s with
  | String c s' => if is_space c then skip_spaces s' else s
  | "" => s
  end.

(** [\s+], which is what a blank in the format stands for. *)
Definition spaces1 (s : string) : option string :=
  match s with
  | String c s' => if is_space c then Some (skip_spaces s') else None
  | "" => None
  end.

(** [%d] also admits a blank and one digit. *)
Definition directive_d (s : string) : option (list Z * string) :=
  match s with
  | String " " s' =>
      match directive 1 1 1 9 s' with
      | Some r => Some r
      | None => None
      end
  | _ => directive 1 2 1 31 s
  end.

(** The fraction is read as if filled with zeros to six digits. *)
Definition fraction_value (ds : list Z) : Z :=
  digits_value ds * 10 ^ (6 - Z.of_nat (length ds)).

(** [datetime.strptime(s, '%Y-%m-%d %H:%M:%S.%f')]: the whole of [s] has to
    match, and the fields have to make a date; ValueError otherwise. *)
Definition strptime (s : string) : result datetime :=
  let parsed :=
    '(yy, s) ← directive 4 4 0 9999 s;
    s ← literal "-" s;
    '(mo, s) ← directive 1 2 1 12 s;
    s ← literal "-" s;
    '(dd, s) ← directive_d s;
    s ← spaces1 s;
    '(hh, s) ← directive 1 2 0 23 s;
    s ← literal ":" s;
    '(mi, s) ← directive 1 2 0 59 s;
    s ← literal ":" s;
    '(ss, s) ← directive 1 2 0 61 s;
    s ← literal "." s;
    '(ff, s) ← directive 1 6 0 999999 s;
    if String.eqb s "" then
      Some (mk_datetime (digits_value yy) (digits_value mo) (digits_value dd)
              (digits_value hh) (digits_value mi) (digits_value ss)
              (fraction_value ff))
    else None in
  match parsed with
  | Some d => if dt_valid d then Return d else Raise ValueError
  | None => Raise ValueError
  end.

(** [int(s)] for a [str]: blanks around, a sign, decimal digits, single
    underscores between digits. *)
Fixpoint all_digits (s : string) : option (list Z) :=
  match s with
  | "" => Some []
  | String c s' =>
      v ← digit_value c;
      match s' with
      | String "_" s'' =>
          match s'' with
          | "" => None
          | _ => ds ← all_digits s''; Some (v :: ds)
          end
      | _ => ds ← all_digits s'; Some (v :: ds)
      end
  end.

Definition unsigned_int (s : string) : result Z :=
  match all_digits s with
  | Some (d :: ds) => Return (digits_value (d :: ds))
  | _ => Raise ValueError
  end.

Definition py_int (s : string) : result Z :=
  let s := String.rev (skip_spaces (String.rev (skip_spaces s))) in
  match s with
  | String "-" s' => z ← unsigned_int s'; Return (- z)
  | String "+" s' => unsigned_int s'
  | _ => unsigned_int s
  end.

(** ** The artifact store: [napps_server/api/napps.py] *)

Definition NAPP_REPO : string := "/var/www/kytos/napps/repo".
Definition ALLOWED_EXTENSIONS : gset string := {[ ".napp" ]}.

Definition _allowed_file (filename : string) : result bool :=
  if contains "." filename then
    ext ← py_index (rsplit1 "." filename) 1;
    Return (bool_decide (ext ∈ ALLOWED_EXTENSIONS))
  else Return false.

Section ArtifactStore.
(** The host the handler runs on: the regular-expression engine, the
    directory listing and the local date.  [re_compile p] is [ReError] for
    a pattern [re] rejects; otherwise it is the compiled pattern's [match],
    which answers [None] for no match and [Some g] for a match, [g] being
    [group(1)]: a [str], or [None] when that group took no part. *)
Variable re_compile : string → result (string → option (option string)).
Variable os_listdir : string → result (list string).
Variable strftime_Ymd : string.

Definition _curr_date : string := strftime_Ymd.

(** The body of the [for file in os.listdir(author_repo)] loop, folded
    over the listing; the accumulator is the variable [counter]. *)
Fixpoint scan_counter (regexp_match : string → option (option string))
    (counter : pyval) (files : list string) : result pyval :=
  match files with
  | [] => Return counter
  | file :: rest =>
      match regexp_match file with
      | Some matched =>
          let group1 := from_option PStr PNone matched in
          bigger ← py_gt group1 counter;
          if (bigger : bool) then scan_counter regexp_match group1 rest
          else scan_counter regexp_match counter rest
      | None => scan_counter regexp_match counter rest
      end
  end.

Definition _napp_versioned_name (author napp_name : string) : result string :=
  let author_repo := os_path_join NAPP_REPO author in
  let basename := napp_name +:+ _curr_date +:+ "-" in
  regexp ← re_compile (basename +:+ "(\d+)" +:+ ".napp");
  files ← os_listdir author_repo;
  counter ← scan_counter regexp (PInt 0) files;
  name ← str_add basename counter;
  Return (name +:+ ".napp").
End ArtifactStore.

(** ** The store: the Redis connection [con] *)

(** Hashes, sets and lists, each kind kept apart.  Redis itself holds one
    kind of value under a key and refuses a command of another kind with
    WRONGTYPE; that refusal is not modelled (see [hash_key_free] and its
    companions, which the statements about writes use).  Every stored value
    is text. *)
Record Redis := mk_redis {
  hashes : gmap string (gmap string string);
  sets : gmap string (gset string);
  lists : gmap string (list string)
}.

(** What a request can touch: the store, the mail handed to the SMTP server
    (recipient and subject), and how many random identifiers were drawn. *)
Record world := mk_world {
  con : Redis;
  outbox : list (pyval * string);
  draws : nat
}.

(** Statements run in a state and exception monad; a raise keeps the writes
    made before it. *)
Definition M (A : Type) : Type := world → result A * world.

Global Instance M_ret : MRet M := λ A a w, (Return a, w).
Global Instance M_bind : MBind M := λ A B f m w,
  match m w with
  | (Return a, w') => f a w'
  | (Raise e, w') => (Raise e, w')
  end.

Definition lift {A} (r : result A) : M A := λ w, (r, w).
Definition raise {A} (e : exn) : M A := λ w, (Raise e, w).

(** [try: body / except e0: ...]: [None] when [body] raised [e0]. *)
Definition try_except {A} (body : M A) (e0 : exn) : M (option A) := λ w,
  match body w with
  | (Return a, w') => (Return (Some a), w')
  | (Raise e, w') => if decide (e = e0) then (Return None, w') else (Raise e, w')
  end.

Definition with_con (f : Redis → Redis) : M unit := λ w,
  (Return (), mk_world (f (con w)) (outbox w) (draws w)).

(** The client turns what it is given into text: [bytes] are sent as they
    are, everything else through [str]. *)
Definition redis_encode (v : pyval) : string :=
  match v with
  | PBytes b => b
  | _ => py_str v
  end.

Definition hgetall (key : string) : M (gmap string string) := λ w,
  (Return (default ∅ (hashes (con w) !! key)), w).

Definition hmset (key : string) (mapping : gmap string pyval) : M unit :=
  with_con (λ c,
    mk_redis (<[key := (redis_encode <$> mapping) ∪ default ∅ (hashes c !! key)]> (hashes c))
             (sets c) (lists c)).

Definition sadd (key member : string) : M unit :=
  with_con (λ c,
    mk_redis (hashes c) (<[key := {[member]} ∪ default ∅ (sets c !! key)]> (sets c))
             (lists c)).

Definition smembers (key : string) : M (gset string) := λ w,
  (Return (default ∅ (sets (con w) !! key)), w).

Definition lpush (key value : string) : M unit :=
  with_con (λ c,
    mk_redis (hashes c) (sets c)
             (<[key := value :: default [] (lists c !! key)]> (lists c))).

(** [con.lrange(key, start, stop)] for indices counted from the head. *)
Definition lrange (key : string) (start stop : nat) : M (list string) := λ w,
  (Return (take (S stop - start) (drop start (default [] (lists (con w) !! key)))), w).

(** [d[k]]. *)
Definition dict_get {V} (d : gmap string V) (k : string) : result V :=
  match d !! k with
  | Some v => Return v
  | None => Raise KeyError
  end.

(** Binding the keyword arguments of a call to a signature (parameter names
    with their defaults): a keyword that names no parameter, or a parameter
    left without value, is a TypeError. *)
Definition bind_keywords (signature : list (string * option pyval))
    (kwargs : list (string * pyval)) : result (list pyval) :=
  if forallb (λ kw, bool_decide (kw.1 ∈ signature.*1)) kwargs then
    mapM (λ p : string * option pyval,
            match list_find (λ kw : string * pyval, kw.1 = p.1) kwargs with
            | Some (_, (_, v)) => Return v
            | None => from_option Return (Raise TypeError) p.2
            end) signature
  else Raise TypeError.

(** ** Collaborators *)

(** What [json.loads] can give: an object, which Python holds as a [dict],
    an array, a string, or a scalar (a number, a boolean or null). *)
Inductive json :=
  | JObject (d : gmap string pyval)
  | JArray (l : list pyval)
  | JString (s : string)
  | JScalar (v : pyval).

(** The libraries and services the core calls and does not define.
    - [eval_expr] is [eval] on every text other than the three literals that
      [py_eval] reads itself;
    - [urandom_hash n] is what the [n]-th call of [Token.generate] returns;
    - [publish_html] is the docutils rendering behind [Napp.readme_html]:
      [body_pre_docinfo] and [fragment] of [publish_parts], joined;
    - [urlopen_read] is [urlopen(url)] read and decoded as UTF-8, [None]
      standing for any failure on the way;
    - [json_loads] is [json.loads], [None] standing for a parse error. *)
Record Collaborators := mk_collaborators {
  eval_expr : string → result pyval;
  urandom_hash : nat → string;
  publish_html : pyval → result string;
  urlopen_read : string → option string;
  json_loads : string → option json
}.

Section Model.
Context (ext : Collaborators).
(** One request is served at one instant: every [datetime.utcnow()] in it
    reads [now]. *)
Context (now : datetime).

Definition utcnow : datetime := now.

Definition py_eval (s : string) : result pyval :=
  if String.eqb s "True" then Return (PBool true)
  else if String.eqb s "False" then Return (PBool false)
  else if String.eqb s "None" then Return PNone
  else eval_expr ext s.

(** ** [class User] *)

(** The attributes [__init__] sets, and [password], which only [User.get]
    and [set_password] set. *)
Record User := mk_user {
  username : pyval;
  email : pyval;
  first_name : pyval;
  last_name : pyval;
  phone : pyval;
  city : pyval;
  state : pyval;
  country : pyval;
  enabled : pyval;
  password : option pyval
}.

Definition User_signature : list (string * option pyval) :=
  [("username", None); ("email", None); ("first_name", None);
   ("last_name", None); ("phone", Some PNone); ("city", Some PNone);
   ("state", Some PNone); ("country", Some PNone);
   ("enabled", Some (PBool false))].

(** [User(name=value, ...)]: a call with keyword arguments. *)
Definition User_init (kwargs : list (string * pyval)) : result User :=
  args ← bind_keywords User_signature kwargs;
  match args with
  | [u; e; f; l; ph; ci; st; co; en] =>
      Return (mk_user u e f l ph ci st co en None)
  | _ => Raise TypeError
  end.

Definition set_enabled (u : User) (v : pyval) : User :=
  mk_user (username u) (email u) (first_name u) (last_name u) (phone u)
          (city u) (state u) (country u) v (password u).

Definition set_password_attr (u : User) (v : pyval) : User :=
  mk_user (username u) (email u) (first_name u) (last_name u) (phone u)
          (city u) (state u) (country u) (enabled u) (Some v).

Definition User_redis_key (self : User) : string :=
  "user:" +:+ py_str (username self).

Definition User_from_dict (attributes : gmap string string) : result User :=
  u ← dict_get attributes "username";
  e ← dict_get attributes "email";
  f ← dict_get attributes "first_name";
  l ← dict_get attributes "last_name";
  ph ← dict_get attributes "phone";
  ci ← dict_get attributes "city";
  st ← dict_get attributes "state";
  co ← dict_get attributes "country";
  en ← dict_get attributes "enabled" ≫= py_eval;
  Return (mk_user (PStr u) (PStr e) (PStr f) (PStr l) (PStr ph) (PStr ci)
                  (PStr st) (PStr co) en None).

Definition User_get (name : pyval) : M User :=
  attributes ← hgetall ("user:" +:+ py_str name);
  if bool_decide (attributes ≠ ∅) then
    user ← lift (User_from_dict attributes);
    pw ← lift (dict_get attributes "password");
    mret (set_password_attr user (PBytes pw))
  else raise NappsEntryDoesNotExists.

(** [deepcopy(self.__dict__)]. *)
Definition User_dict (self : User) : gmap string pyval :=
  let d : gmap string pyval :=
    {[ "username" := username self; "email" := email self;
       "first_name" := first_name self; "last_name" := last_name self;
       "phone" := phone self; "city" := city self; "state" := state self;
       "country" := country self; "enabled" := enabled self ]} in
  match password self with
  | Some pw => <["password" := pw]> d
  | None => d
  end.

Definition User_as_dict (self : User) (hide_sensible detailed : bool)
    : result (gmap string pyval) :=
  let result0 := User_dict self in
  result1 ← (if hide_sensible then
               match result0 !! "password" with
               | Some _ => Return (delete "password" result0)
               | None => Raise KeyError
               end
             else Return result0);
  Return (if detailed then
            <["tokens" := PStr (User_redis_key self +:+ ":tokens")]>
            (<["comments" := PStr (User_redis_key self +:+ ":comments")]>
            (<["napps" := PStr (User_redis_key self +:+ ":napps")]> result1))
          else result1).

Definition User_save (self : User) : M unit :=
  pw ← lift (from_option Return (Raise AttributeError) (password self));
  if negb (py_truthy pw) then raise InvalidAuthor
  else
    sadd "users" (User_redis_key self);;
    d ← lift (User_as_dict self false true);
    hmset (User_redis_key self) d.

(** [enable] and [disable] change the object; they answer the changed one. *)
Definition User_enable (self : User) : M User :=
  let self := set_enabled self (PBool true) in
  User_save self;; mret self.

(** ** [class Token] *)

Record Token := mk_token {
  hash : string;
  created_at : datetime;
  user : User;
  expiration_time : Z
}.

Definition Token_generate : M string := λ w,
  (Return (urandom_hash ext (draws w)), mk_world (con w) (outbox w) (S (draws w))).

(** [Token(hash, created_at, user, expiration_time)]; every call in the
    source passes a [User]. *)
Definition Token_init (hash0 : option string) (created_at0 : option datetime)
    (user0 : User) (expiration_time0 : Z) : M Token :=
  h ← match hash0 with
      | Some h => if py_truthy (PStr h) then mret h else Token_generate
      | None => Token_generate
      end;
  mret (mk_token h (default utcnow created_at0) user0 expiration_time0).

Definition Token_redis_key (self : Token) : string := "token:" +:+ hash self.

(** The sum is kept as its place on the time line (see [dt_micros]). *)
Definition Token_expires_at (self : Token) : Z :=
  dt_micros (created_at self) + expiration_time self * 1000000.

Definition Token_from_dict (attributes : gmap string string) : M Token :=
  h ← lift (dict_get attributes "hash");
  c ← lift (dict_get attributes "created_at" ≫= strptime);
  u ← (name ← lift (dict_get attributes "user"); User_get (PStr name));
  e ← lift (dict_get attributes "expiration_time" ≫= py_int);
  Token_init (Some h) (Some c) u e.

Definition Token_get (token : string) : M Token :=
  attributes ← hgetall ("token:" +:+ token);
  if bool_decide (attributes ≠ ∅) then Token_from_dict attributes
  else raise NappsEntryDoesNotExists.

Definition Token_is_valid (self : Token) : bool :=
  dt_micros utcnow <=? Token_expires_at self.

Definition Token_as_dict (self : Token) : gmap string pyval :=
  {[ "hash" := PStr (hash self); "created_at" := PDatetime (created_at self);
     "user" := username (user self);
     "expiration_time" := PInt (expiration_time self) ]}.

Definition Token_save (self : Token) : M unit :=
  sadd "tokens" (Token_redis_key self);;
  hmset (Token_redis_key self) (Token_as_dict self).

Definition Token_invalidate (self : Token) : M Token :=
  let self := mk_token (hash self) (created_at self) (user self) 0 in
  Token_save self;; mret self.

(** ** [class User], continued: what needs tokens *)

(** The property [User.token]. *)
Definition User_token (self : User) : M (option Token) :=
  keys ← lrange (User_redis_key self +:+ ":tokens") 0 0;
  match py_index keys 0 with
  | Raise IndexError => mret None
  | Raise e => raise e
  | Return key =>
      attributes ← hgetall key;
      token ← Token_from_dict attributes;
      if Token_is_valid token then mret (Some token) else mret None
  end.

(** Reading an attribute of what [self.token] gave. *)
Definition token_attr (t : option Token) : M Token :=
  lift (from_option Return (Raise AttributeError) t).

Definition User_disable (self : User) : M User :=
  let self := set_enabled self (PBool false) in
  token ← User_token self ≫= token_attr;
  Token_invalidate token;;
  User_save self;; mret self.

Definition User_create_token (self : User) (expiration_time0 : Z) : M Token :=
  token ← Token_init None None self expiration_time0;
  Token_save token;;
  lpush (User_redis_key self +:+ ":tokens") (Token_redis_key token);;
  mret token.

(** The mail goes to the SMTP collaborator; the model keeps who it is for
    and its subject.  Rendering the template ([render_template]) and
    handing the mail over are taken to succeed. *)
Definition User_send_email (self : User) (subject : string) : M unit := λ w,
  (Return (), mk_world (con w) (outbox w ++ [(email self, subject)]) (draws w)).

Definition User_send_token (self : User) : M unit :=
  t ← User_token self;
  match t with
  | None => mret ()
  | Some _ =>
      _ ← User_token self ≫= token_attr;
      User_send_email self "Kytos Napps Repository: Confirm your account"
  end.

Definition User_send_welcome (self : User) : M unit :=
  if negb (py_truthy (enabled self)) then mret ()
  else User_send_email self "Welcome to Kytos Napps Respository".

(** ** The user routes: [api/users.py] *)

Record response := mk_response {
  body : string;
  status : Z
}.

Definition register_user (content : gmap string pyval) : M response :=
  found ← try_except (name ← lift (dict_get content "username"); User_get name)
                     NappsEntryDoesNotExists;
  match found with
  | Some _ => mret (mk_response "Username already exists" 401)
  | None =>
      u ← lift (dict_get content "username");
      p ← lift (dict_get content "password");
      e ← lift (dict_get content "email");
      f ← lift (dict_get content "first_name");
      l ← lift (dict_get content "last_name");
      user ← lift (User_init [("username", u); ("password", p); ("email", e);
                              ("first_name", f); ("last_name", l)]);
      User_save user;;
      _ ← User_create_token user 86400;
      User_send_token user;;
      mret (mk_response "" 201)
  end.

Definition confirm_user (name token : string) : M response :=
  found ← try_except (User_get (PStr name)) NappsEntryDoesNotExists;
  match found with
  | None => mret (mk_response "User not found" 404)
  | Some user =>
      t ← User_token user;
      match t with
      | None => mret (mk_response "Invalid token" 400)
      | Some _ =>
          t1 ← User_token user ≫= token_attr;
          stale ← (if negb (String.eqb (hash t1) token) then mret true
                   else t2 ← User_token user ≫= token_attr;
                        mret (negb (Token_is_valid t2)));
          if (stale : bool) then mret (mk_response "Invalid token" 400)
          else
            user ← User_enable user;
            t3 ← User_token user ≫= token_attr;
            _ ← Token_invalidate t3;
            User_send_welcome user;;
            mret (mk_response "" 200)
      end
  end.

End Model.

(** ** [class Napp] *)

(** [Napp.schema], in the order it is written, which is the order its keys
    are walked in; each key with its [type].  The entry [required] is kept
    apart. *)
Definition Napp_schema : list (string * string) :=
  [("name", "string"); ("description", "string"); ("long_description", "string");
   ("version", "string"); ("author", "string"); ("license", "string");
   ("git", "string"); ("branch", "string"); ("readme", "string");
   ("ofversion", "array"); ("tags", "array"); ("dependencies", "array");
   ("user", "string")].

Definition Napp_required : list string :=
  ["name"; "description"; "version"; "author"; "license"; "git"; "branch";
   "ofversion"; "tags"; "dependencies"].

(** A [Napp] object: the attribute [user], which [__init__] always sets, and
    the attributes [setattr] adds, none of which is called [user]. *)
Record Napp := mk_napp {
  Napp_user : option User;
  Napp_dict : gmap string pyval
}.

(** [self.key] and [setattr(self, key, v)]. *)
Definition Napp_getattr (self : Napp) (key : string) : result pyval :=
  from_option Return (Raise AttributeError) (Napp_dict self !! key).

Definition Napp_setattr (self : Napp) (key : string) (v : pyval) : Napp :=
  mk_napp (Napp_user self) (<[key := v]> (Napp_dict self)).

Definition newline : string := String "010" "".

(** [re.sub('\.git\/?$', '/', s)]: the pattern can only match at the end of
    [s], or just before a newline that ends it. *)
Fixpoint re_sub_git_suffix (s : string) : string :=
  if decide (s = ".git" ∨ s = ".git/") then "/"
  else if decide (s = ".git" +:+ newline ∨ s = ".git/" +:+ newline)
  then "/" +:+ newline
  else match s with
       | "" => ""
       | String c rest => String c (re_sub_git_suffix rest)
       end.

Definition re_sub_git (v : pyval) : result string :=
  match v with
  | PStr s => Return (re_sub_git_suffix s)
  | _ => Raise TypeError
  end.

(** [v + s] with [s] a [str]. *)
Definition add_str (v : pyval) (s : string) : result string :=
  match v with
  | PStr t => Return (t +:+ s)
  | _ => Raise TypeError
  end.

(** [key in attributes] where [attributes] is a [str]: a substring test. *)
Fixpoint has_substring (t s : string) : bool :=
  String.prefix t s
  || match s with
     | "" => false
     | String _ s' => has_substring t s'
     end.

(** [re.sub(r'^user:', '', key)]. *)
Definition re_sub_user_prefix (key : string) : string :=
  match key with
  | String "u" (String "s" (String "e" (String "r" (String ":" rest)))) => rest
  | _ => key
  end.

(** A loop whose body can raise. *)
Fixpoint foldM {A B} (f : B → A → result B) (b : B) (l : list A) : result B :=
  match l with
  | [] => Return b
  | a :: rest => b' ← f b a; foldM f b' rest
  end.

(** A list comprehension whose element expression can raise and can touch
    the store. *)
Fixpoint comprehension {A B} (f : A → M B) (l : list A) : M (list B) :=
  match l with
  | [] => mret []
  | a :: rest => b ← f a; bs ← comprehension f rest; mret (b :: bs)
  end.


Section NappModel.
Context (ext : Collaborators).

Definition Napp_redis_key (self : Napp) : result string :=
  author ← Napp_getattr self "author";
  name ← Napp_getattr self "name";
  Return ("napp:" +:+ py_str author +:+ "/" +:+ py_str name).

Definition Napp_url_for_raw_file_from_git (self : Napp) : result string :=
  url ← Napp_getattr self "git" ≫= re_sub_git;
  part ← Napp_getattr self "branch" ≫= str_add "raw/";
  part ← Napp_getattr self "author" ≫= str_add (part +:+ "/");
  let url := url +:+ (part +:+ "/") in
  tail ← (name ← Napp_getattr self "name"; add_str name "/");
  Return (url +:+ tail).

(** The URL is built before the [try]; whatever goes wrong inside it,
    opening, reading, decoding or parsing, becomes RepositoryNotReachable. *)
Definition Napp_json_from_git (self : Napp) : result json :=
  base ← Napp_url_for_raw_file_from_git self;
  let url := base +:+ "kytos.json" in
  match urlopen_read ext url ≫= json_loads ext with
  | Some attributes => Return attributes
  | None => Raise RepositoryNotReachable
  end.

Definition Napp_readme_rst (self : Napp) : result pyval :=
  readme ← Napp_getattr self "readme";
  if py_truthy readme then Napp_getattr self "readme"
  else Napp_getattr self "long_description".

Definition Napp_readme_html (self : Napp) : result string :=
  Napp_readme_rst self ≫= publish_html ext.

Definition Napp_update_readme_from_git (self : Napp) : result Napp :=
  base ← Napp_url_for_raw_file_from_git self;
  let url := base +:+ "README.rst" in
  match urlopen_read ext url with
  | Some text => Return (Napp_setattr self "readme" (PStr text))
  | None => Raise RepositoryNotReachable
  end.

(** [eval(x)]: [x] has to be source text. *)
Definition eval_arg (x : pyval) : result pyval :=
  match x with
  | PStr s => py_eval ext s
  | PBytes s => py_eval ext s
  | _ => Raise TypeError
  end.

Definition is_list (v : pyval) : bool :=
  match v with
  | PList _ => true
  | _ => false
  end.

(** One turn of the loop of [_populate_from_dict], on the object and on the
    dictionary it was handed, which the loop writes to. *)
Definition populate_key (st : Napp * gmap string pyval) (entry : string * string)
    : result (Napp * gmap string pyval) :=
  let '(self, attributes) := st in
  let '(key, type) := entry in
  if bool_decide (key ≠ "user") then
    if bool_decide (key ∈ Napp_required) && bool_decide (attributes !! key = None)
    then Raise InvalidNappMetaData
    else
      attributes ←
        (if String.eqb type "array"
            && negb (is_list (default PNone (attributes !! key)))
         then
           v ← eval_arg (default (PList []) (attributes !! key));
           Return (<[key := v]> attributes)
         else Return attributes);
      Return (Napp_setattr self key (default PNone (attributes !! key)), attributes)
  else Return st.

(** [_populate_from_dict]: the loop, then the readme fetched from the
    repository when the object has none, any failure of which is dropped. *)
Definition Napp_populate_from_dict (self : Napp) (attributes : gmap string pyval)
    : result Napp :=
  '(self, _) ← foldM populate_key (self, attributes) Napp_schema;
  readme ← Napp_getattr self "readme";
  if negb (py_truthy readme) then
    match Napp_update_readme_from_git self with
    | Return self' => Return self'
    | Raise _ => Return self
    end
  else Return self.

(** [Napp(content, user)]: [user] is None, a [User], or a name to look up. *)
Definition Napp_init (content : option (gmap string pyval))
    (user0 : option (User + pyval)) : M Napp :=
  u ← match user0 with
      | None => mret None
      | Some (inl u) => mret (Some u)
      | Some (inr name) => u ← User_get ext name; mret (Some u)
      end;
  let self := mk_napp u ∅ in
  match content with
  | None => mret self
  | Some attributes => lift (Napp_populate_from_dict self attributes)
  end.

(** The loop gives every key but [user] its attribute, or the default of
    its type; the entry it makes for [user] is replaced right after it. *)
Definition Napp_as_dict (self : Napp) : result (gmap string pyval) :=
  let data :=
    foldl (λ (data : gmap string pyval) '(key, type),
             if bool_decide (key ≠ "user") then
               <[key := default (if String.eqb type "array" then PList [] else PStr "")
                                (Napp_dict self !! key)]> data
             else data)
          ∅ Napp_schema in
  author ← Napp_getattr self "author";
  let data := <["user" := author]> data in
  html ← Napp_readme_html self;
  Return (<["readme" := PStr html]> data).

Definition Napp_save (self : Napp) : M unit :=
  key ← lift (Napp_redis_key self);
  sadd "napps" key;;
  author ← lift (Napp_getattr self "author");
  key ← lift (Napp_redis_key self);
  sadd ("user:" +:+ py_str author +:+ ":napps") key;;
  key ← lift (Napp_redis_key self);
  data ← lift (Napp_as_dict self);
  hmset key data.

Definition Napp_all : M (list Napp) :=
  napps ← smembers "napps";
  comprehension (λ napp, attributes ← hgetall napp;
                         Napp_init (Some (PStr <$> attributes)) None)
                (elements napps).

(** [napp.user.username]. *)
Definition Napp_user_username (self : Napp) : result pyval :=
  match Napp_user self with
  | Some u => Return (username u)
  | None => Raise AttributeError
  end.

Definition Napp_new_napp_from_dict (attributes : gmap string pyval)
    (user0 : option (User + pyval)) : M Napp :=
  napp ← Napp_init (Some attributes) user0;
  name ← lift (Napp_user_username napp);
  author ← lift (Napp_getattr napp "author");
  if negb (py_eqb name author) then raise InvalidAuthor
  else Napp_save napp;; mret napp.

(** [attributes.author]: neither a [dict] nor any other value [json.loads]
    gives has an attribute of that name; the keys of a [dict] are no
    attributes. *)
Definition getattr_author (attributes : json) : result pyval :=
  match attributes with
  | JObject _ => Raise AttributeError
  | JArray _ => Raise AttributeError
  | JString _ => Raise AttributeError
  | JScalar _ => Raise AttributeError
  end.

(** [_populate_from_dict] on something that is no [dict]: the first turn of
    its loop, for the key [name], ends it. *)
Definition Napp_populate_from_json (self : Napp) (attributes : json) : result Napp :=
  match attributes with
  | JObject d => Napp_populate_from_dict self d
  | JArray l =>
      if existsb (py_eqb (PStr "name")) l then Raise AttributeError
      else Raise InvalidNappMetaData
  | JString s =>
      if has_substring "name" s then Raise AttributeError
      else Raise InvalidNappMetaData
  | JScalar _ => Raise TypeError
  end.

Definition Napp_update_from_dict (self : Napp) (attributes : json) : M Napp :=
  name ← lift (Napp_user_username self);
  author ← lift (getattr_author attributes);
  if negb (py_eqb name author) then raise InvalidAuthor
  else
    self ← lift (Napp_populate_from_json self attributes);
    Napp_save self;; mret self.

Definition Napp_update_from_git (self : Napp) : M Napp :=
  attributes ← lift (Napp_json_from_git self);
  Napp_update_from_dict self attributes.

(** ** [class User], continued: what needs napps *)

Definition User_get_all_napps (self : User) : M (list Napp) :=
  napps ← smembers (User_redis_key self +:+ ":napps");
  comprehension (λ napp, attributes ← hgetall napp;
                         Napp_init (Some (PStr <$> attributes))
                                   (Some (inr (username self))))
                (elements napps).


(** ** [class User], continued: every user, and the password *)

Definition User_all : M (list User) :=
  users ← smembers "users";
  comprehension (λ key, User_get ext (PStr (re_sub_user_prefix key))) (elements users).

Section Bcrypt.
(** [bcrypt.hashpw(password, salt)], and [bcrypt.checkpw(password, hashed)],
    which raises ValueError on a [hashed] that is no bcrypt hash. *)
Variable bcrypt_hashpw : string → string → string.
Variable bcrypt_checkpw : string → string → result bool.

(** [salt] is what [bcrypt.gensalt()] gave. *)
Definition User_set_password (salt : string) (self : User) (password0 : string)
    : M User :=
  let self := set_password_attr self (PBytes (bcrypt_hashpw password0 salt)) in
  User_save self;; mret self.

Definition User_check_auth (name : pyval) (password0 : string) : M bool :=
  found ← try_except (User_get ext name) NappsEntryDoesNotExists;
  match found with
  | None => mret false
  | Some user =>
      match password user with
      | Some (PBytes hashed) =>
          ok ← lift (bcrypt_checkpw password0 hashed);
          if negb ok then mret false else mret true
      | Some _ => raise TypeError
      | None => raise AttributeError
      end
  end.
End Bcrypt.

(** ** The user routes, continued *)

(** What [jsonify] is handed, and the status. *)
Record json_response := mk_json_response {
  payload : gmap string pyval;
  code : Z
}.

Definition get_user (name : string) : M json_response :=
  found ← try_except (User_get ext (PStr name)) NappsEntryDoesNotExists;
  match found with
  | None => mret (mk_json_response {[ "error" := PStr "User not found" ]} 404)
  | Some user =>
      d ← lift (User_as_dict user true false);
      mret (mk_json_response d 200)
  end.

(** [{user.username: user.as_dict() for user in User.all()}]: a later user
    of the same name replaces an earlier one. *)
Definition get_users : M (gmap string (gmap string pyval) * Z) :=
  users ← User_all;
  views ← lift (foldM (λ (acc : gmap string (gmap string pyval)) (user : User),
                         d ← User_as_dict user true false;
                         Return (<[py_str (username user) := d]> acc))
                      ∅ users);
  mret (views, 200).
End NappModel.

(* ===================================================================== *)
(** ** Vocabulary of the properties *)
(* ===================================================================== *)

(** The digits [zfill] writes, most significant first. *)
Fixpoint digs (w : nat) (n : Z) : list Z :=
  match w with
  | O => []
  | S w' => digs w' (n / 10) ++ [n mod 10]
  end.

(** The record [Token.save] leaves under the token's key: the encoded
    mapping, over whatever fields the key held before. *)
Definition token_record (t : Token) (old : gmap string string) : gmap string string :=
  (redis_encode <$> Token_as_dict t) ∪ old.

(** The mapping [User.save] hands to [hmset]. *)
Definition user_mapping (u : User) (pw : pyval) : gmap string pyval :=
  <["tokens" := PStr (User_redis_key u +:+ ":tokens")]>
  (<["comments" := PStr (User_redis_key u +:+ ":comments")]>
  (<["napps" := PStr (User_redis_key u +:+ ":napps")]>
  (<["password" := pw]>
    ({[ "username" := username u; "email" := email u;
        "first_name" := first_name u; "last_name" := last_name u;
        "phone" := phone u; "city" := city u; "state" := state u;
        "country" := country u; "enabled" := enabled u ]} : gmap string pyval)))).

Definition user_record (u : User) (pw : pyval) (old : gmap string string)
    : gmap string string :=
  (redis_encode <$> user_mapping u pw) ∪ old.

(** The world after [User.save] went through. *)
Definition after_user_save (u : User) (pw : pyval) (w : world) : world :=
  mk_world (mk_redis
      (<[User_redis_key u :=
           user_record u pw (default ∅ (hashes (con w) !! User_redis_key u))]>
         (hashes (con w)))
      (<["users" := {[User_redis_key u]} ∪ default ∅ (sets (con w) !! "users")]>
         (sets (con w)))
      (lists (con w)))
    (outbox w) (draws w).

(** A record as the save methods leave it: no empty password, a [hash] that
    is not empty and names the record's key, a [username] that names it. *)
Definition wf_record (key : string) (rec : gmap string string) : bool :=
  negb (bool_decide (rec !! "password" = Some ""))
  && match rec !! "hash" with
     | Some h => negb (String.eqb h "") && String.eqb key ("token:" +:+ h)
     | None => true
     end
  && match rec !! "username" with
     | Some n => String.eqb key ("user:" +:+ n)
     | None => true
     end.

Definition wf_store (c : Redis) : Prop :=
  map_Forall (λ key rec, wf_record key rec = true) (hashes c).

Section Views.
Context (ext : Collaborators) (now : datetime).

(** What [User.get], [Token.from_dict] and [User.token] answer on a store,
    as plain functions of it. *)
Definition stored_user (c : Redis) (name : pyval) : result User :=
  (User_get ext name (mk_world c [] 0)).1.

Definition stored_token (c : Redis) (attributes : gmap string string) : result Token :=
  (Token_from_dict ext now attributes (mk_world c [] 0)).1.

Definition current_token (c : Redis) (u : User) : result (option Token) :=
  (User_token ext now u (mk_world c [] 0)).1.

(** What remains of [confirm_user] once the token matched. *)
Definition confirm_accepted (user : User) : M response :=
  user ← User_enable user;
  t3 ← User_token ext now user ≫= token_attr;
  _ ← Token_invalidate t3;
  User_send_welcome user;;
  mret (mk_response "" 200).

(** The world an accepted confirmation leaves: the user saved as enabled,
    the token saved with no lifetime left, the welcome mail sent. *)
Definition confirmed_world (user : User) (t : Token) (w : world) : world :=
  let user1 := set_enabled user (PBool true) in
  let w1 := (User_save user1 w).2 in
  let w2 := (Token_invalidate t w1).2 in
  (User_send_welcome user1 w2).2.
End Views.

(** ** Sample data *)

(** A store, a user and a few instants for the examples. *)

Definition sample_ext : Collaborators :=
  mk_collaborators (λ _, Raise SyntaxError) (λ n, "h" +:+ pretty n)
    (λ v, Return ("<p>" +:+ py_str v +:+ "</p>")) (λ _, None) (λ _, None).
Definition empty_world : world := mk_world (mk_redis ∅ ∅ ∅) [] 0.
Definition alice : User :=
  mk_user (PStr "alice") (PStr "a@x.com") (PStr "Alice") (PStr "A")
          PNone PNone PNone PNone (PBool false) (Some (PBytes "$2b$12$hash")).
Definition new_year : datetime := mk_datetime 2024 1 1 0 0 0 5.
Definition new_year_noon : datetime := mk_datetime 2024 1 1 12 0 0 0.
Definition alice_token : Token := mk_token "h0" new_year alice 86400.

Definition whole_second : datetime := mk_datetime 2024 1 1 0 0 0 0.
Definition whole_second_token : Token := mk_token "h0" whole_second alice 86400.

(** A user whose token list is [expired; live], newest first. *)
Definition expired_token : Token := mk_token "h1" new_year alice 60.
Definition two_token_world : world :=
  let w1 := (User_save alice empty_world).2 in
  let w2 := (Token_save alice_token w1).2 in
  let w3 := (lpush (User_redis_key alice +:+ ":tokens") (Token_redis_key alice_token) w2).2 in
  let w4 := (Token_save expired_token w3).2 in
  (lpush (User_redis_key alice +:+ ":tokens") (Token_redis_key expired_token) w4).2.

(** Alice as the store gives her back: what was None is now text. *)
Definition alice_stored : User :=
  mk_user (PStr "alice") (PStr "a@x.com") (PStr "Alice") (PStr "A")
          (PStr "None") (PStr "None") (PStr "None") (PStr "None")
          (PBool false) (Some (PBytes "$2b$12$hash")).

(** Alice registered, her confirmation token issued a moment ago. *)
Definition pending_world : world :=
  let w1 := (User_save alice empty_world).2 in
  (User_create_token sample_ext new_year alice 86400 w1).2.

(** A host where the author's directory holds today's first upload. *)
Definition sample_match (file : string) : option (option string) :=
  if String.eqb file "foo20240101-0.napp" then Some (Some "0") else None.
Definition sample_re_compile (pattern : string)
    : result (string → option (option string)) := Return sample_match.
Definition sample_listdir (dir : string) : result (list string) :=
  Return ["foo20240101-0.napp"].

(** The body of a registration request. *)
Definition bob_request : gmap string pyval :=
  {[ "username" := PStr "bob"; "password" := PStr "secret";
     "email" := PStr "b@x.com"; "first_name" := PStr "Bob";
     "last_name" := PStr "B" ]}.

(** The metadata of a napp of Alice's, as a request carries it. *)
Definition of_l2ls : gmap string pyval :=
  {[ "name" := PStr "of_l2ls"; "description" := PStr "An L2 learning switch";
     "version" := PStr "1.0"; "author" := PStr "alice"; "license" := PStr "MIT";
     "git" := PStr "https://github.com/alice/napps.git"; "branch" := PStr "master";
     "ofversion" := PList [PStr "1.0"]; "tags" := PList [PStr "switch"];
     "dependencies" := PList [] ]}.

(** What the loop of [_populate_from_dict] makes of it. *)
Definition of_l2ls_napp (u : option User) : Napp :=
  mk_napp u
    {[ "name" := PStr "of_l2ls"; "description" := PStr "An L2 learning switch";
       "long_description" := PNone;
       "version" := PStr "1.0"; "author" := PStr "alice"; "license" := PStr "MIT";
       "git" := PStr "https://github.com/alice/napps.git"; "branch" := PStr "master";
       "readme" := PNone;
       "ofversion" := PList [PStr "1.0"]; "tags" := PList [PStr "switch"];
       "dependencies" := PList [] ]}.

(** No blank in the text. *)
Fixpoint no_space (s : string) : bool :=
  match s with
  | "" => true
  | String c s' => negb (is_space c) && no_space s'
  end.

Definition is_text (v : pyval) : bool :=
  match v with
  | PStr _ => true
  | _ => false
  end.


(** Carol filled in her whole profile. *)
Definition carol : User :=
  mk_user (PStr "carol") (PStr "c@x.com") (PStr "Carol") (PStr "C")
          (PStr "555") (PStr "Sao Paulo") (PStr "SP") (PStr "BR")
          (PBool true) (Some (PBytes "$2b$12$hash")).

(** A napp with a readme of its own. *)
Definition of_lldp_napp : Napp :=
  mk_napp (Some carol)
    {[ "name" := PStr "of_lldp"; "author" := PStr "carol";
       "readme" := PStr "Hello" ]}.

(** The fields [User.save] writes. *)
Definition user_fields : list string :=
  ["username"; "email"; "first_name"; "last_name"; "phone"; "city"; "state";
   "country"; "enabled"; "password"; "napps"; "comments"; "tokens"].

(** What [get_user] shows of Alice. *)
Definition alice_view : json_response :=
  mk_json_response
    {[ "username" := PStr "alice"; "email" := PStr "a@x.com";
       "first_name" := PStr "Alice"; "last_name" := PStr "A";
       "phone" := PStr "None"; "city" := PStr "None"; "state" := PStr "None";
       "country" := PStr "None"; "enabled" := PBool false ]} 200.

(** A bcrypt that keeps the password readable, for the examples. *)
Definition sample_hashpw (password0 salt : string) : string :=
  salt +:+ "$" +:+ password0.
Definition sample_checkpw (password0 hashed : string) : result bool :=
  Return (String.eqb (sample_hashpw password0 "salt") hashed).

(** A docutils that renders text and rejects a source that is none. *)
Definition strict_ext : Collaborators :=
  mk_collaborators (λ _, Raise SyntaxError) (λ n, "h" +:+ pretty n)
    (λ v, match v with
          | PStr s => Return ("<p>" +:+ s +:+ "</p>")
          | _ => Raise AttributeError
          end)
    (λ _, None) (λ _, None).

(** A napp whose repository name does not end in [.git]. *)
Definition bare_repo_napp : Napp :=
  mk_napp None
    {[ "name" := PStr "of_l2ls"; "author" := PStr "alice";
       "git" := PStr "https://github.com/alice/napps"; "branch" := PStr "master" ]}.

(** A store with two users. *)
Definition two_user_world : world :=
  (User_save carol (User_save alice empty_world).2).2.

(** ** Where the model and the program agree *)

(** A key that holds no set and no list, so that [hmset] and [hgetall] on
    it are not refused; likewise for the commands on sets and on lists.
    (The keys the code builds can meet: the record of a user called
    [x:tokens] and the token list of user [x] are both [user:x:tokens].) *)
Definition hash_key_free (c : Redis) (key : string) : bool :=
  bool_decide (sets c !! key = None) && bool_decide (lists c !! key = None).

Definition set_key_free (c : Redis) (key : string) : bool :=
  bool_decide (hashes c !! key = None) && bool_decide (lists c !! key = None).

Definition list_key_free (c : Redis) (key : string) : bool :=
  bool_decide (hashes c !! key = None) && bool_decide (sets c !! key = None).

(** [datetime.min] and [datetime.max]. *)
Definition datetime_min : datetime := mk_datetime 1 1 1 0 0 0 0.
Definition datetime_max : datetime := mk_datetime 9999 12 31 23 59 59 999999.

(** [created_at + timedelta(seconds=expiration_time)] is a datetime, and
    no OverflowError. *)
Definition Token_expires_at_defined (self : Token) : bool :=
  (dt_micros datetime_min <=? Token_expires_at self)
  && (Token_expires_at self <=? dt_micros datetime_max).








(* ===================================================================== *)
(** * Part II: properties *)
(* ===================================================================== *)

Lemma rsplit1_nonempty sep s : rsplit1 sep s ≠ [].
Proof.
  induction s as [|a s IH]; simpl; [done|].
  destruct (rsplit1 sep s) as [|h [|h' rest]]; [done| |done].
  by case_decide.
Qed.

(** ** The artifact store *)

Lemma rsplit1_tail_clean sep s :
  match rsplit1 sep s with
  | [t] => contains sep s = false ∧ t = s
  | [_; t] => contains sep s = true ∧ contains sep t = false
  | _ => False
  end.
Proof.
  induction s as [|a s IH]; simpl; [done|].
  destruct (rsplit1 sep s) as [|h [|t [|x rest]]]; try done.
  - destruct IH as [Hs ->]. case_decide; simpl; by rewrite ?Hs.
  - destruct IH as [Hs Ht]. case_decide; by rewrite ?Hs.
Qed.

(** C7.  Whatever the filename, [_allowed_file] answers False: the part
    [rsplit] leaves after the last dot holds no dot, and the one permitted
    extension, [.napp], starts with one.  So no filename ending in [.napp]
    is accepted. *)
Theorem _allowed_file_never (filename : string) :
  _allowed_file filename = Return false.
Proof.
  unfold _allowed_file. destruct (contains "." filename) eqn:Hdot; [|done].
  pose proof (rsplit1_tail_clean "." filename) as H.
  destruct (rsplit1 "." filename) as [|h [|t [|x rest]]]; try done.
  { destruct H as [H _]. congruence. }
  destruct H as [_ Ht]. simpl. f_equal.
  apply bool_decide_eq_false. unfold ALLOWED_EXTENSIONS.
  intros ->%elem_of_singleton. discriminate.
Qed.

Example _allowed_file_foo_napp : _allowed_file "foo.napp" = Return false.
Proof. reflexivity. Qed.

Section ArtifactStoreFacts.
Variable re_compile : string → result (string → option (option string)).
Variable os_listdir : string → result (list string).
Variable strftime_Ymd : string.

(** While [counter] is the integer it starts as, the loop either leaves it
    alone or stops on the comparison of a [str] (or None) with an [int]. *)
Lemma scan_counter_int regexp_match z files :
  scan_counter regexp_match (PInt z) files = Return (PInt z)
  ∨ scan_counter regexp_match (PInt z) files = Raise TypeError.
Proof.
  induction files as [|file rest IH]; simpl; [by left|].
  destruct (regexp_match file) as [[s|]|]; simpl; auto.
Qed.

(** C6.  Once the pattern compiled and the directory was listed,
    [_napp_versioned_name] raises TypeError whatever the directory holds: a
    matching file makes it compare [group(1)] with the integer [counter], and
    with no matching file it adds that integer to a string.  It never
    returns a filename, let alone one with the next counter. *)
Theorem _napp_versioned_name_raises author napp_name regexp files :
  re_compile ((napp_name +:+ strftime_Ymd +:+ "-") +:+ "(\d+)" +:+ ".napp")
    = Return regexp →
  os_listdir (os_path_join NAPP_REPO author) = Return files →
  _napp_versioned_name re_compile os_listdir strftime_Ymd author napp_name
    = Raise TypeError.
Proof.
  intros Hre Hls. unfold _napp_versioned_name, _curr_date.
  rewrite Hre, Hls. simpl.
  by destruct (scan_counter_int regexp 0 files) as [-> | ->].
Qed.
End ArtifactStoreFacts.

(** ** Reading back what [str] wrote *)

Lemma digit_value_digit n : 0 ≤ n < 10 → digit_value (digit n) = Some n.
Proof.
  intros H.
  assert (n = 0 ∨ n = 1 ∨ n = 2 ∨ n = 3 ∨ n = 4 ∨ n = 5 ∨ n = 6 ∨ n = 7
          ∨ n = 8 ∨ n = 9) as Hn by lia.
  by repeat destruct Hn as [-> | Hn]; try subst n.
Qed.

Lemma take_digits_zfill w : ∀ k n tail,
  take_digits (w + k) (zfill w n tail) =
    let '(ds, rest) := take_digits k tail in ((digs w n ++ ds)%list, rest).
Proof.
  induction w as [|w IH]; intros k n tail.
  - simpl. by destruct (take_digits k tail).
  - cbn [zfill digs]. replace (S w + k)%nat with (w + S k)%nat by lia.
    rewrite IH. cbn [take_digits].
    rewrite digit_value_digit by (apply Z.mod_pos_bound; lia).
    destruct (take_digits k tail) as [ds rest]. by rewrite <-app_assoc.
Qed.

Lemma digits_value_snoc ds v : digits_value (ds ++ [v])%list = digits_value ds * 10 + v.
Proof. unfold digits_value. by rewrite fold_left_app. Qed.

Lemma digits_value_digs w : ∀ n, 0 ≤ n → digits_value (digs w n) = n mod 10 ^ Z.of_nat w.
Proof.
  induction w as [|w IH]; intros n Hn.
  - simpl. by rewrite Z.mod_1_r.
  - cbn [digs]. rewrite digits_value_snoc, IH by (apply Z.div_pos; lia).
    rewrite Nat2Z.inj_succ, Z.pow_succ_r by lia.
    assert (0 < 10 ^ Z.of_nat w) by (apply Z.pow_pos_nonneg; lia).
    rewrite Z.rem_mul_r by lia. lia.
Qed.

Lemma length_digs w n : length (digs w n) = w.
Proof. revert n; induction w as [|w IH]; intros n; simpl; [done|]. rewrite length_app, IH. simpl. lia. Qed.

Lemma directive_zfill (lo w : nat) (a b n : Z) tail :
  (lo ≤ w)%nat → 0 ≤ n < 10 ^ Z.of_nat w → a ≤ n ≤ b →
  directive lo w a b (zfill w n tail) = Some (digs w n, tail).
Proof.
  intros Hw Hn Hab. unfold directive.
  pose proof (take_digits_zfill w 0 n tail) as H.
  rewrite Nat.add_0_r in H. rewrite H. simpl. rewrite app_nil_r.
  rewrite length_digs, digits_value_digs, Z.mod_small by lia.
  assert ((lo <=? w)%nat = true) as -> by (apply Nat.leb_le; lia).
  assert ((a <=? n) = true) as -> by lia.
  assert ((n <=? b) = true) as -> by lia. done.
Qed.

Lemma zfill2_head n tail :
  zfill 2 n tail = String (digit ((n / 10) mod 10)) (String (digit (n mod 10)) tail).
Proof. done. Qed.

Lemma directive_d_digit n s :
  0 ≤ n < 10 → directive_d (String (digit n) s) = directive 1 2 1 31 (String (digit n) s).
Proof.
  intros H.
  assert (n = 0 ∨ n = 1 ∨ n = 2 ∨ n = 3 ∨ n = 4 ∨ n = 5 ∨ n = 6 ∨ n = 7
          ∨ n = 8 ∨ n = 9) as Hn by lia.
  by repeat destruct Hn as [-> | Hn]; try subst n.
Qed.

Lemma directive_d_zfill n tail :
  1 ≤ n ≤ 31 → directive_d (zfill 2 n tail) = Some (digs 2 n, tail).
Proof.
  intros Hn. rewrite zfill2_head.
  rewrite directive_d_digit by (apply Z.mod_pos_bound; lia).
  rewrite <-zfill2_head. apply directive_zfill; simpl; lia.
Qed.

Lemma days_in_month_le y m : _days_in_month y m ≤ 31.
Proof. unfold _days_in_month. repeat case_match; lia. Qed.

Lemma dt_valid_bounds d :
  dt_valid d = true →
  1 ≤ year d ≤ 9999 ∧ 1 ≤ month d ≤ 12 ∧ 1 ≤ day d ≤ 31 ∧ 0 ≤ hour d ≤ 23
  ∧ 0 ≤ minute d ≤ 59 ∧ 0 ≤ second d ≤ 59 ∧ 0 ≤ microsecond d ≤ 999999.
Proof.
  unfold dt_valid. rewrite !andb_true_iff, !Z.leb_le.
  pose proof (days_in_month_le (year d) (month d)). lia.
Qed.

Lemma digits_value_digs_small w n :
  0 ≤ n < 10 ^ Z.of_nat w → digits_value (digs w n) = n.
Proof. intros. rewrite digits_value_digs, Z.mod_small; lia. Qed.

Ltac next_field :=
  cbn [mbind option_bind literal]; rewrite decide_True by done;
  cbn [mbind option_bind].

(** Reading back what [str] wrote. *)
Lemma strptime_dt_str d :
  dt_valid d = true →
  strptime (dt_str d) =
    if microsecond d =? 0 then Raise ValueError else Return d.
Proof.
  intros Hv. pose proof (dt_valid_bounds d Hv) as (Hy & Hm & Hd & HH & HM & HS & Hf).
  assert (∀ n t, skip_spaces (zfill 2 n t) = zfill 2 n t) as Hskip.
  { intros n t. rewrite zfill2_head. cbn [skip_spaces].
    assert (0 ≤ (n / 10) mod 10 < 10) as Hr by (apply Z.mod_pos_bound; lia).
    assert (∀ k, 0 ≤ k < 10 → is_space (digit k) = false) as Hsp.
    { intros k Hk.
      assert (k = 0 ∨ k = 1 ∨ k = 2 ∨ k = 3 ∨ k = 4 ∨ k = 5 ∨ k = 6 ∨ k = 7
              ∨ k = 8 ∨ k = 9) as Hn by lia.
      by repeat destruct Hn as [-> | Hn]; try subst k. }
    by rewrite Hsp. }
  unfold strptime, dt_str.
  rewrite (directive_zfill 4 4) by (simpl; lia). next_field.
  rewrite (directive_zfill 1 2) by (simpl; lia). next_field.
  rewrite directive_d_zfill by lia. cbn [mbind option_bind spaces1].
  replace (is_space " ") with true by done. rewrite Hskip. cbn [mbind option_bind].
  rewrite (directive_zfill 1 2) by (simpl; lia). next_field.
  rewrite (directive_zfill 1 2) by (simpl; lia). next_field.
  rewrite (directive_zfill 1 2) by (simpl; lia). cbn [mbind option_bind].
  destruct (microsecond d =? 0) eqn:Hus; [done|].
  next_field.
  rewrite (directive_zfill 1 6) by (simpl; lia). cbn [mbind option_bind].
  replace (String.eqb "" "") with true by done.
  unfold fraction_value. rewrite length_digs.
  rewrite !digits_value_digs_small by (simpl; lia).
  replace (10 ^ (6 - Z.of_nat 6)) with 1 by done. rewrite Z.mul_1_r.
  destruct d; simpl in *. by rewrite Hv.
Qed.


(** ** The store *)

Lemma token_record_fields t old :
  token_record t old !! "hash" = Some (hash t)
  ∧ token_record t old !! "created_at" = Some (dt_str (created_at t))
  ∧ token_record t old !! "user" = Some (redis_encode (username (user t)))
  ∧ token_record t old !! "expiration_time" = Some (pretty (expiration_time t)).
Proof.
  unfold token_record, Token_as_dict.
  repeat split; apply lookup_union_Some_l; rewrite lookup_fmap; by simplify_map_eq.
Qed.

Lemma Token_save_eq t w :
  Token_save t w =
    (Return (),
     mk_world (mk_redis
        (<[Token_redis_key t := token_record t (default ∅ (hashes (con w) !! Token_redis_key t))]>
           (hashes (con w)))
        (<["tokens" := {[Token_redis_key t]} ∪ default ∅ (sets (con w) !! "tokens")]> (sets (con w)))
        (lists (con w)))
       (outbox w) (draws w)).
Proof. done. Qed.

Lemma Token_save_twice t w :
  Token_save t (Token_save t w).2 = (Return (), (Token_save t w).2).
Proof.
  rewrite !Token_save_eq. cbn [snd con hashes sets lists outbox draws].
  do 2 f_equal. f_equal.
  - rewrite lookup_insert_eq. cbn [default]. rewrite insert_insert_eq.
    f_equal. unfold token_record, id. by rewrite (assoc_L (∪)), (idemp_L (∪)).
  - rewrite lookup_insert_eq. cbn [default]. rewrite insert_insert_eq.
    f_equal. unfold id. set_solver.
Qed.

(** Unfolding the monad down to matches on results. *)
Ltac munfold :=
  unfold mbind, M_bind, result_bind, lift, raise, mret, M_ret, result_ret,
    try_except, token_attr in *.

Section ViewFacts.
Context (ext : Collaborators) (now : datetime).


Lemma M_bind_unfold {A B} (m : M A) (k : A → M B) w :
  (m ≫= k) w =
    match m w with
    | (Return a, w') => k a w'
    | (Raise e, w') => (Raise e, w')
    end.
Proof. done. Qed.

Lemma User_get_pure name w :
  User_get ext name w = (stored_user ext (con w) name, w).
Proof.
  unfold stored_user, User_get, hgetall. munfold. cbn [con fst].
  by repeat case_match.
Qed.

Lemma Token_from_dict_pure attributes w :
  attributes !! "hash" ≠ Some "" →
  Token_from_dict ext now attributes w = (stored_token ext now (con w) attributes, w).
Proof.
  intros Hh. unfold stored_token, Token_from_dict, Token_init, dict_get in *.
  munfold. cbn [con fst py_truthy].
  repeat (first [rewrite !User_get_pure in * | case_match]; simplify_eq/=); try done.
  all: rewrite ->negb_false_iff, String.eqb_eq in *; by simplify_eq.
Qed.

Lemma User_token_pure u w :
  wf_store (con w) →
  User_token ext now u w = (current_token ext now (con w) u, w).
Proof.
  intros Hwf. unfold current_token, User_token, lrange, hgetall, py_index.
  munfold. cbn [con fst].
  destruct (take _ _ !! 0%nat) as [k|] eqn:Ek; [|done].
  assert (default ∅ (hashes (con w) !! k) !! "hash" ≠ Some "") as Hh.
  { destruct (hashes (con w) !! k) as [rec|] eqn:Er; [|done].
    apply Hwf in Er. unfold wf_record in Er. cbn [default from_option id].
    intros E. rewrite E in Er. rewrite !andb_true_iff in Er. naive_solver. }
  rewrite !Token_from_dict_pure by done. cbn [con fst].
  by repeat case_match.
Qed.

Lemma current_token_valid c u t :
  current_token ext now c u = Return (Some t) → Token_is_valid now t = true.
Proof.
  unfold current_token, User_token, lrange, hgetall, py_index. munfold.
  cbn [con fst]. intros H. repeat case_match; by simplify_eq/=.
Qed.

Lemma confirm_user_cases name token w :
  wf_store (con w) →
  confirm_user ext now name token w =
    match stored_user ext (con w) (PStr name) with
    | Raise NappsEntryDoesNotExists => (Return (mk_response "User not found" 404), w)
    | Raise e => (Raise e, w)
    | Return user =>
        match current_token ext now (con w) user with
        | Raise e => (Raise e, w)
        | Return None => (Return (mk_response "Invalid token" 400), w)
        | Return (Some t) =>
            if String.eqb (hash t) token then confirm_accepted ext now user w
            else (Return (mk_response "Invalid token" 400), w)
        end
    end.
Proof.
  intros Hwf. unfold confirm_user, confirm_accepted.
  rewrite M_bind_unfold. unfold try_except. rewrite User_get_pure.
  destruct (stored_user ext _ _) as [user|e] eqn:Eu.
  2: { by destruct e. }
  rewrite M_bind_unfold, User_token_pure by done.
  destruct (current_token ext now _ _) as [[t|]|e] eqn:Et; [|done..].
  apply current_token_valid in Et as Hv.
  rewrite M_bind_unfold, M_bind_unfold, User_token_pure, Et by done.
  unfold token_attr at 1, lift at 1. cbn [from_option].
  destruct (String.eqb (hash t) token) eqn:Eh; cbn [negb]; [|done].
  rewrite M_bind_unfold, M_bind_unfold, M_bind_unfold, User_token_pure, Et by done.
  unfold token_attr at 1, lift at 1. cbn [from_option]. by rewrite Hv.
Qed.

Lemma stored_user_inv c name u :
  stored_user ext c name = Return u →
  ∃ rec un em fn ln ph ci st co en_s en pw,
    hashes c !! ("user:" +:+ py_str name) = Some rec
    ∧ rec !! "username" = Some un ∧ rec !! "email" = Some em
    ∧ rec !! "first_name" = Some fn ∧ rec !! "last_name" = Some ln
    ∧ rec !! "phone" = Some ph ∧ rec !! "city" = Some ci
    ∧ rec !! "state" = Some st ∧ rec !! "country" = Some co
    ∧ rec !! "enabled" = Some en_s ∧ py_eval ext en_s = Return en
    ∧ rec !! "password" = Some pw
    ∧ u = mk_user (PStr un) (PStr em) (PStr fn) (PStr ln) (PStr ph) (PStr ci)
                  (PStr st) (PStr co) en (Some (PBytes pw)).
Proof.
  unfold stored_user, User_get, User_from_dict, hgetall, dict_get. munfold.
  cbn [con fst].
  destruct (hashes c !! _) as [rec|] eqn:Er; cbn [default from_option id].
  2: { rewrite bool_decide_eq_false_2 by (intros ?; done). done. }
  destruct (bool_decide (rec ≠ ∅)); [|done].
  destruct (rec !! "username") as [un|] eqn:?; [|done].
  destruct (rec !! "email") as [em|] eqn:?; [|done].
  destruct (rec !! "first_name") as [fn|] eqn:?; [|done].
  destruct (rec !! "last_name") as [ln|] eqn:?; [|done].
  destruct (rec !! "phone") as [ph|] eqn:?; [|done].
  destruct (rec !! "city") as [ci|] eqn:?; [|done].
  destruct (rec !! "state") as [st|] eqn:?; [|done].
  destruct (rec !! "country") as [co|] eqn:?; [|done].
  destruct (rec !! "enabled") as [en_s|] eqn:?; [|done].
  destruct (py_eval ext en_s) as [en|] eqn:Een; [|done].
  destruct (rec !! "password") as [pw|] eqn:?; [|done].
  cbn. intros [= <-].
  exists rec, un, em, fn, ln, ph, ci, st, co, en_s, en, pw. by repeat split.
Qed.

Lemma stored_user_intro c name rec un em fn ln ph ci st co en_s en pw :
  hashes c !! ("user:" +:+ py_str name) = Some rec →
  rec !! "username" = Some un → rec !! "email" = Some em →
  rec !! "first_name" = Some fn → rec !! "last_name" = Some ln →
  rec !! "phone" = Some ph → rec !! "city" = Some ci →
  rec !! "state" = Some st → rec !! "country" = Some co →
  rec !! "enabled" = Some en_s → py_eval ext en_s = Return en →
  rec !! "password" = Some pw →
  stored_user ext c name =
    Return (mk_user (PStr un) (PStr em) (PStr fn) (PStr ln) (PStr ph) (PStr ci)
                    (PStr st) (PStr co) en (Some (PBytes pw))).
Proof.
  intros Hr H1 H2 H3 H4 H5 H6 H7 H8 H9 H10 H11.
  unfold stored_user, User_get, User_from_dict, hgetall, dict_get. munfold.
  cbn [con fst]. rewrite Hr. cbn [default from_option id].
  rewrite bool_decide_eq_true_2 by (intros ->; done).
  by rewrite H1, H2, H3, H4, H5, H6, H7, H8, H9, H10, H11.
Qed.

Lemma stored_token_inv c attributes t :
  stored_token ext now c attributes = Return t →
  attributes !! "hash" ≠ Some "" →
  ∃ cs n es u,
    attributes !! "hash" = Some (hash t)
    ∧ attributes !! "created_at" = Some cs ∧ strptime cs = Return (created_at t)
    ∧ attributes !! "user" = Some n ∧ stored_user ext c (PStr n) = Return u
    ∧ attributes !! "expiration_time" = Some es
    ∧ py_int es = Return (expiration_time t)
    ∧ t = mk_token (hash t) (created_at t) u (expiration_time t).
Proof.
  unfold stored_token, Token_from_dict, Token_init, dict_get. munfold.
  intros H Hh.
  repeat (first [rewrite !User_get_pure in * | case_match]; simplify_eq/=).
  all: try (rewrite ->negb_false_iff, String.eqb_eq in *; by simplify_eq).
  naive_solver.
Qed.

Lemma stored_token_intro c attributes h cs cr n u es e :
  attributes !! "hash" = Some h → h ≠ "" →
  attributes !! "created_at" = Some cs → strptime cs = Return cr →
  attributes !! "user" = Some n → stored_user ext c (PStr n) = Return u →
  attributes !! "expiration_time" = Some es → py_int es = Return e →
  stored_token ext now c attributes = Return (mk_token h cr u e).
Proof.
  intros H1 Hne H2 H3 H4 H5 H6 H7.
  unfold stored_token, Token_from_dict, Token_init, dict_get. munfold.
  rewrite H1, H2, H3, H4. rewrite User_get_pure. cbn [con fst].
  rewrite H5, H6, H7. cbn [py_truthy].
  destruct (String.eqb h "") eqn:E; [|done].
  by apply String.eqb_eq in E.
Qed.

Lemma current_token_inv c u t :
  current_token ext now c u = Return (Some t) →
  ∃ k rest,
    lists c !! (User_redis_key u +:+ ":tokens") = Some (k :: rest)
    ∧ stored_token ext now c (default ∅ (hashes c !! k)) = Return t
    ∧ Token_is_valid now t = true.
Proof.
  unfold current_token, User_token, lrange, hgetall, py_index. munfold.
  cbn [con fst]. intros H.
  destruct (lists c !! _) as [[|k rest]|]; cbn in H; try done.
  exists k, rest. split; [done|].
  unfold stored_token.
  destruct (Token_from_dict _ _ _ _) as [[t'|e] w']; cbn in *; [|done].
  destruct (Token_is_valid now t') eqn:Ev; by simplify_eq/=.
Qed.

Lemma current_token_intro c u k rest t :
  lists c !! (User_redis_key u +:+ ":tokens") = Some (k :: rest) →
  stored_token ext now c (default ∅ (hashes c !! k)) = Return t →
  current_token ext now c u = Return (if Token_is_valid now t then Some t else None).
Proof.
  unfold current_token, User_token, lrange, hgetall, py_index, stored_token.
  munfold. cbn [con fst]. intros -> H. cbn.
  destruct (Token_from_dict _ _ _ _) as [[t'|e] w']; cbn in *; simplify_eq.
  by destruct (Token_is_valid now t).
Qed.
End ViewFacts.

Lemma User_save_eq u pw w :
  password u = Some pw → py_truthy pw = true →
  User_save u w = (Return (), after_user_save u pw w).
Proof.
  intros Hp Ht. unfold User_save, User_as_dict, User_dict.
  rewrite Hp. cbn [from_option]. rewrite M_bind_unfold. unfold lift at 1.
  rewrite Ht. cbn [negb]. done.
Qed.

Lemma user_record_fields u pw old :
  let rec := user_record u pw old in
  rec !! "username" = Some (redis_encode (username u))
  ∧ rec !! "email" = Some (redis_encode (email u))
  ∧ rec !! "first_name" = Some (redis_encode (first_name u))
  ∧ rec !! "last_name" = Some (redis_encode (last_name u))
  ∧ rec !! "phone" = Some (redis_encode (phone u))
  ∧ rec !! "city" = Some (redis_encode (city u))
  ∧ rec !! "state" = Some (redis_encode (state u))
  ∧ rec !! "country" = Some (redis_encode (country u))
  ∧ rec !! "enabled" = Some (redis_encode (enabled u))
  ∧ rec !! "password" = Some (redis_encode pw)
  ∧ rec !! "hash" = old !! "hash"
  ∧ rec !! "created_at" = old !! "created_at"
  ∧ rec !! "user" = old !! "user"
  ∧ rec !! "expiration_time" = old !! "expiration_time".
Proof.
  cbn zeta. unfold user_record, user_mapping.
  repeat split;
    first [ apply lookup_union_Some_l; rewrite lookup_fmap; by simplify_map_eq
          | apply lookup_union_r; rewrite lookup_fmap; by simplify_map_eq ].
Qed.

Lemma token_record_other t old :
  token_record t old !! "password" = old !! "password"
  ∧ token_record t old !! "username" = old !! "username".
Proof.
  unfold token_record, Token_as_dict.
  split; apply lookup_union_r; rewrite lookup_fmap; by simplify_map_eq.
Qed.

Lemma wf_record_spec key rec :
  wf_record key rec = true ↔
    rec !! "password" ≠ Some ""
    ∧ (∀ h, rec !! "hash" = Some h → h ≠ "" ∧ key = "token:" +:+ h)
    ∧ (∀ n, rec !! "username" = Some n → key = "user:" +:+ n).
Proof.
  unfold wf_record. rewrite !andb_true_iff, negb_true_iff, bool_decide_eq_false.
  destruct (rec !! "hash") as [h|], (rec !! "username") as [n|];
    rewrite ?andb_true_iff, ?negb_true_iff, ?String.eqb_eq, ?String.eqb_neq;
    naive_solver.
Qed.

Lemma User_save_wf u b n w :
  wf_store (con w) → username u = PStr n → b ≠ "" →
  wf_store (con (after_user_save u (PBytes b) w)).
Proof.
  intros Hwf Hn Hb. unfold wf_store, after_user_save. cbn [con hashes].
  apply map_Forall_insert_2; [|done].
  pose proof (user_record_fields u (PBytes b)
                (default ∅ (hashes (con w) !! User_redis_key u))) as F.
  cbn zeta in F. destruct F as (Fu & _ & _ & _ & _ & _ & _ & _ & _ & Fp & Fh & _).
  apply wf_record_spec. rewrite Fu, Fp, Fh, Hn. cbn [redis_encode py_str].
  split; [naive_solver|]. split.
  - intros h Hh. destruct (hashes (con w) !! User_redis_key u) as [old|] eqn:Eo;
      [|done]. apply Hwf in Eo. apply wf_record_spec in Eo. naive_solver.
  - intros ? [= <-]. unfold User_redis_key. by rewrite Hn.
Qed.

Lemma Token_save_wf t w :
  wf_store (con w) → hash t ≠ "" → wf_store (con (Token_save t w).2).
Proof.
  intros Hwf Hh. rewrite Token_save_eq. unfold wf_store. cbn [snd con hashes].
  apply map_Forall_insert_2; [|done].
  destruct (token_record_fields t (default ∅ (hashes (con w) !! Token_redis_key t)))
    as (Fh & _).
  destruct (token_record_other t (default ∅ (hashes (con w) !! Token_redis_key t)))
    as (Fp & Fu).
  apply wf_record_spec. rewrite Fh, Fp, Fu.
  destruct (hashes (con w) !! Token_redis_key t) as [old|] eqn:Eo.
  - apply Hwf in Eo. apply wf_record_spec in Eo. cbn [default from_option id].
    split; [naive_solver|]. split; [|naive_solver]. by intros ? [= <-].
  - cbn [default from_option id]. rewrite !lookup_empty.
    split; [done|]. split; [|done]. by intros ? [= <-].
Qed.

Section Confirm.
Context (ext : Collaborators) (now : datetime).

Lemma user_key_inj a b : "user:" +:+ a = "user:" +:+ b → a = b.
Proof. apply (inj (String.app "user:")). Qed.

Lemma token_key_not_user h n : "token:" +:+ h ≠ "user:" +:+ n.
Proof. intros H. discriminate H. Qed.

(** A user read from a well-formed store: its name is the one asked for
    and its password is set and not empty. *)
Lemma stored_user_wf c name u :
  wf_store c → stored_user ext c (PStr name) = Return u →
  username u = PStr name ∧ ∃ b, password u = Some (PBytes b) ∧ b ≠ "".
Proof.
  intros Hwf Hu. apply stored_user_inv in Hu
    as (rec & un & em & fn & ln & ph & ci & st & co & en_s & en & pw & Hr & Hun
        & _ & _ & _ & _ & _ & _ & _ & _ & _ & Hpw & ->).
  apply Hwf in Hr. apply wf_record_spec in Hr as (Hp & _ & Hn).
  apply Hn in Hun. apply user_key_inj in Hun as <-. cbn.
  split; [done|]. exists pw. split; [done|]. naive_solver.
Qed.

(** Saving a user leaves every user readable, under the same name. *)
Lemma stored_user_after_save u b name w n u0 :
  wf_store (con w) → username u = PStr name → password u = Some (PBytes b) →
  py_eval ext (redis_encode (enabled u)) = Return (enabled u) →
  stored_user ext (con w) (PStr n) = Return u0 →
  ∃ u', stored_user ext (con (after_user_save u (PBytes b) w)) (PStr n) = Return u'
        ∧ username u' = username u0
        ∧ (n = name → enabled u' = enabled u).
Proof.
  intros Hwf Hn Hp He Hu0.
  destruct (decide (n = name)) as [->|Hne].
  - pose proof (user_record_fields u (PBytes b)
                  (default ∅ (hashes (con w) !! User_redis_key u))) as F.
    cbn zeta in F.
    destruct F as (F1 & F2 & F3 & F4 & F5 & F6 & F7 & F8 & F9 & F10 & _).
    eexists. split; [|split].
    + eapply stored_user_intro; try eassumption.
      unfold after_user_save. cbn [con hashes py_str].
      unfold User_redis_key. rewrite Hn. cbn [py_str]. apply lookup_insert_eq.
    + cbn. rewrite Hn. cbn.
      by destruct (stored_user_wf _ _ _ Hwf Hu0) as [-> _].
    + done.
  - exists u0. split; [|done].
    apply stored_user_inv in Hu0
      as (rec & un & em & fn & ln & ph & ci & st & co & en_s & en & pw & Hr & ?
          & ? & ? & ? & ? & ? & ? & ? & ? & ? & ? & ->).
    eapply stored_user_intro; try eassumption.
    unfold after_user_save. cbn [con hashes py_str] in *.
    rewrite lookup_insert_ne; [done|].
    unfold User_redis_key. rewrite Hn. cbn [py_str].
    by intros ?%user_key_inj.
Qed.

Lemma stored_token_empty c : ∀ t, stored_token ext now c ∅ ≠ Return t.
Proof. done. Qed.

(** The head of a user's token list, when it reads as a token in a
    well-formed store. *)
Lemma current_token_wf c u t :
  wf_store c → current_token ext now c u = Return (Some t) →
  ∃ rest rec cs n es u0,
    lists c !! (User_redis_key u +:+ ":tokens") = Some (Token_redis_key t :: rest)
    ∧ hashes c !! Token_redis_key t = Some rec
    ∧ hash t ≠ "" ∧ rec !! "hash" = Some (hash t)
    ∧ rec !! "created_at" = Some cs ∧ strptime cs = Return (created_at t)
    ∧ rec !! "user" = Some n ∧ stored_user ext c (PStr n) = Return u0
    ∧ rec !! "expiration_time" = Some es
    ∧ py_int es = Return (expiration_time t)
    ∧ t = mk_token (hash t) (created_at t) u0 (expiration_time t)
    ∧ Token_is_valid now t = true.
Proof.
  intros Hwf Ht. apply current_token_inv in Ht as (k & rest & Hl & Hst & Hv).
  destruct (hashes c !! k) as [rec|] eqn:Er; cbn [default from_option id] in Hst.
  2: { by apply stored_token_empty in Hst. }
  pose proof (Hwf _ _ Er) as Hrec. apply wf_record_spec in Hrec as (_ & Hh & _).
  apply stored_token_inv in Hst as (cs & n & es & u0 & H1 & H2 & H3 & H4 & H5 & H6 & H7 & H8).
  2: { intros E. apply Hh in E. naive_solver. }
  destruct (Hh _ H1) as [Hne ->].
  exists rest, rec, cs, n, es, u0. unfold Token_redis_key. naive_solver.
Qed.

Lemma confirm_accepted_ok name usr t w :
  wf_store (con w) →
  stored_user ext (con w) (PStr name) = Return usr →
  current_token ext now (con w) usr = Return (Some t) →
  confirm_accepted ext now usr w =
    (Return (mk_response "" 200), confirmed_world usr t w).
Proof.
  intros Hwf Hu Ht.
  destruct (stored_user_wf _ _ _ Hwf Hu) as (Hn & b & Hp & Hb).
  destruct (current_token_wf _ _ _ Hwf Ht)
    as (rest & rec & cs & n & es & u0 & Hl & Hr & Hne & F1 & F2 & F3 & F4 & Hu0
        & F5 & F6 & Heq & Hv).
  set (user1 := set_enabled usr (PBool true)).
  assert (User_save user1 w = (Return (), after_user_save user1 (PBytes b) w)) as Hsave.
  { apply User_save_eq; [done|]. cbn. by destruct (String.eqb_spec b ""). }
  assert (wf_store (con (after_user_save user1 (PBytes b) w))) as Hwf1.
  { by apply (User_save_wf user1 b name). }
  destruct (stored_user_after_save user1 b name w n u0) as (u' & Hu' & Hun & _);
    [done|done|done|reflexivity|done|].
  assert (current_token ext now (con (after_user_save user1 (PBytes b) w)) user1
          = Return (Some (mk_token (hash t) (created_at t) u' (expiration_time t))))
    as Ht1.
  { assert (stored_token ext now (con (after_user_save user1 (PBytes b) w))
              (default ∅ (hashes (con (after_user_save user1 (PBytes b) w))
                            !! Token_redis_key t))
            = Return (mk_token (hash t) (created_at t) u' (expiration_time t)))
      as Hst.
    { unfold after_user_save at 2. cbn [con hashes].
      rewrite lookup_insert_ne.
      2: { unfold User_redis_key, Token_redis_key. cbn [username user1 set_enabled].
           rewrite Hn. cbn [py_str]. intros E. by apply symmetry, token_key_not_user in E. }
      rewrite Hr. cbn [default from_option id].
      by eapply stored_token_intro. }
    assert (lists (con (after_user_save user1 (PBytes b) w))
              !! (User_redis_key user1 +:+ ":tokens")
            = Some (Token_redis_key t :: rest)) as Hl' by exact Hl.
    rewrite (current_token_intro ext now _ user1 _ rest _ Hl' Hst).
    assert (Token_is_valid now (mk_token (hash t) (created_at t) u' (expiration_time t))
            = Token_is_valid now t) as -> by done.
    by rewrite Hv. }
  unfold confirmed_world, confirm_accepted. fold user1.
  rewrite M_bind_unfold. unfold User_enable. fold user1.
  rewrite M_bind_unfold, Hsave. unfold mret at 1, M_ret at 1.
  rewrite M_bind_unfold, M_bind_unfold, User_token_pure, Ht1 by done.
  unfold token_attr at 1, lift at 1. cbn [from_option snd].
  rewrite M_bind_unfold. unfold Token_invalidate.
  rewrite M_bind_unfold. cbn [hash created_at user expiration_time].
  assert (user t = u0) as Hut by (by rewrite Heq).
  assert (∀ W, Token_save (mk_token (hash t) (created_at t) u' 0) W
               = Token_save (mk_token (hash t) (created_at t) (user t) 0) W) as Hts.
  { intros W. rewrite !Token_save_eq.
    unfold token_record, Token_as_dict, Token_redis_key.
    cbn [hash created_at user expiration_time]. by rewrite Hun, Hut. }
  rewrite Hts, (M_bind_unfold (Token_save _)), !Token_save_eq.
  unfold mret, M_ret. cbn [snd]. rewrite M_bind_unfold.
  unfold User_send_welcome, user1. cbn. done.
Qed.
End Confirm.

(** ** Tokens: validity, invalidation, reading back *)

Lemma Token_invalidate_eq t w :
  Token_invalidate t w =
    (Return (mk_token (hash t) (created_at t) (user t) 0),
     (Token_save (mk_token (hash t) (created_at t) (user t) 0) w).2).
Proof. unfold Token_invalidate. rewrite M_bind_unfold, Token_save_eq. done. Qed.

Lemma hgetall_eq key w : hgetall key w = (Return (default ∅ (hashes (con w) !! key)), w).
Proof. done. Qed.

Lemma map_nonempty_lookup {V} (m : gmap string V) k v : m !! k = Some v → m ≠ ∅.
Proof. intros H ->. by rewrite lookup_empty in H. Qed.

(** What [Token.get] finds under a key that [Token.save] wrote. *)
Lemma Token_get_saved ext now t old w :
  dt_valid (created_at t) = true → hash t ≠ "" →
  hashes (con w) !! Token_redis_key t = Some (token_record t old) →
  (Token_get ext now (hash t) w).1 =
    if microsecond (created_at t) =? 0 then Raise ValueError
    else match stored_user ext (con w) (PStr (redis_encode (username (user t)))) with
         | Return u =>
             match py_int (pretty (expiration_time t)) with
             | Return e => Return (mk_token (hash t) (created_at t) u e)
             | Raise e => Raise e
             end
         | Raise e => Raise e
         end.
Proof.
  intros Hv Hne Hrec.
  destruct (token_record_fields t old) as (F1 & F2 & F3 & F4).
  unfold Token_get. rewrite M_bind_unfold, hgetall_eq.
  change ("token:" +:+ hash t) with (Token_redis_key t). rewrite Hrec.
  cbn [default from_option id].
  rewrite bool_decide_eq_true_2 by (by eapply map_nonempty_lookup).
  rewrite Token_from_dict_pure by (rewrite F1; by intros [= ?]).
  cbn [fst]. unfold stored_token, Token_from_dict, Token_init, dict_get.
  munfold. rewrite F1, F2, F3, F4, strptime_dt_str by done.
  destruct (microsecond (created_at t) =? 0); [done|].
  rewrite User_get_pure. cbn [con fst].
  destruct (stored_user _ _ _); [|done].
  destruct (py_int _); [|done]. cbn [py_truthy].
  destruct (String.eqb_spec (hash t) ""); done.
Qed.

(** C2 (as amended).  A token whose [expires_at] is a datetime is valid
    exactly while [now] is not past [created_at] plus [expiration_time]
    seconds.  [invalidate] sets
    [expiration_time] to 0 and persists it; from then on [is_valid] is False at
    every instant after [created_at] (and only there: the test is
    [now <= created_at]), for the object and for every token read back from
    the record; invalidating again changes nothing. *)
Theorem Token_validity_and_invalidation ext (now : datetime) (t : Token) (w : world) :
  dt_valid (created_at t) = true → hash t ≠ "" →
  Token_expires_at_defined t = true →
  (Token_is_valid now t = true
     ↔ dt_micros now ≤ dt_micros (created_at t) + expiration_time t * 1000000)
  ∧ ∃ t' w',
      Token_invalidate t w = (Return t', w')
      ∧ expiration_time t' = 0 ∧ hash t' = hash t ∧ created_at t' = created_at t
      ∧ hashes (con w') !! Token_redis_key t ≫= (.!! "expiration_time") = Some "0"
      ∧ (∀ later, Token_is_valid later t' = true
                   ↔ dt_micros later ≤ dt_micros (created_at t))
      ∧ (∀ later w2 t2,
           hashes (con w2) !! Token_redis_key t = hashes (con w') !! Token_redis_key t →
           (Token_get ext later (hash t) w2).1 = Return t2 →
           expiration_time t2 = 0 ∧ created_at t2 = created_at t
           ∧ (dt_micros (created_at t) < dt_micros later →
              Token_is_valid later t2 = false))
      ∧ Token_invalidate t' w' = (Return t', w').
Proof.
  intros Hv Hne Hrange. split.
  { unfold Token_is_valid, Token_expires_at, utcnow. apply Z.leb_le. }
  set (t' := mk_token (hash t) (created_at t) (user t) 0).
  exists t', (Token_save t' w).2.
  assert (Token_redis_key t' = Token_redis_key t) as Hk by done.
  split; [apply Token_invalidate_eq|]. do 3 (split; [done|]).
  assert (hashes (con (Token_save t' w).2) !! Token_redis_key t
          = Some (token_record t' (default ∅ (hashes (con w) !! Token_redis_key t))))
    as Hrec.
  { rewrite Token_save_eq. cbn [snd con hashes]. rewrite Hk. apply lookup_insert_eq. }
  destruct (token_record_fields t' (default ∅ (hashes (con w) !! Token_redis_key t)))
    as (F1 & F2 & F3 & F4).
  split; [by rewrite Hrec; cbn; rewrite F4|].
  split.
  { intros later. unfold Token_is_valid, Token_expires_at, utcnow. cbn.
    rewrite Z.leb_le. lia. }
  split.
  { intros later w2 t2 Hsame Hget. rewrite Hrec in Hsame.
    rewrite <-Hk in Hsame. change (hash t) with (hash t') in Hget.
    rewrite (Token_get_saved ext later t' _ w2 Hv Hne Hsame) in Hget.
    destruct (microsecond (created_at t') =? 0); [done|].
    destruct (stored_user _ _ _); [|done].
    change (py_int (pretty (expiration_time t'))) with (Return 0 : result Z) in Hget.
    injection Hget as <-. cbn. do 2 (split; [done|]).
    intros Hlt. unfold Token_is_valid, Token_expires_at, utcnow. cbn.
    apply Z.leb_gt. lia. }
  rewrite Token_invalidate_eq.
  change (mk_token (hash t') (created_at t') (user t') 0) with t'.
  by rewrite Token_save_twice.
Qed.

Lemma Token_validity_and_invalidation_witness :
  (Token_is_valid new_year_noon alice_token = true
     ↔ dt_micros new_year_noon
        ≤ dt_micros (created_at alice_token) + expiration_time alice_token * 1000000)
  ∧ ∃ t' w',
      Token_invalidate alice_token empty_world = (Return t', w')
      ∧ expiration_time t' = 0 ∧ hash t' = hash alice_token
      ∧ created_at t' = created_at alice_token
      ∧ hashes (con w') !! Token_redis_key alice_token ≫= (.!! "expiration_time")
        = Some "0"
      ∧ (∀ later, Token_is_valid later t' = true
                   ↔ dt_micros later ≤ dt_micros (created_at alice_token))
      ∧ (∀ later w2 t2,
           hashes (con w2) !! Token_redis_key alice_token
             = hashes (con w') !! Token_redis_key alice_token →
           (Token_get sample_ext later (hash alice_token) w2).1 = Return t2 →
           expiration_time t2 = 0 ∧ created_at t2 = created_at alice_token
           ∧ (dt_micros (created_at alice_token) < dt_micros later →
              Token_is_valid later t2 = false))
      ∧ Token_invalidate t' w' = (Return t', w').
Proof.
  apply (Token_validity_and_invalidation sample_ext new_year_noon alice_token empty_world);
    [reflexivity | discriminate | reflexivity].
Defined.

(** C2, as stated, fails: a token invalidated at the very instant it was
    created is still valid at that instant, and a token whose [created_at]
    lies ahead of the clock stays valid after [invalidate]. *)
Lemma Token_invalidate_not_unconditional :
  (Token_invalidate alice_token empty_world).1
    = Return (mk_token "h0" new_year alice 0)
  ∧ Token_is_valid new_year (mk_token "h0" new_year alice 0) = true
  ∧ (Token_invalidate (mk_token "h1" new_year_noon alice 86400) empty_world).1
    = Return (mk_token "h1" new_year_noon alice 0)
  ∧ Token_is_valid new_year (mk_token "h1" new_year_noon alice 0) = true.
Proof. repeat split. Qed.

Lemma Token_from_dict_unreadable ext now attributes h cs w :
  attributes !! "hash" = Some h → attributes !! "created_at" = Some cs →
  strptime cs = Raise ValueError →
  Token_from_dict ext now attributes w = (Raise ValueError, w).
Proof.
  intros H1 H2 H3. unfold Token_from_dict, dict_get. munfold.
  by rewrite H1, H2, H3.
Qed.

(** C10.  [Token.save] writes [created_at] through [str], which leaves the
    fraction out when [microsecond] is 0; [Token.from_dict] reads it with a
    format that demands the fraction.  So a token saved with a whole-second
    [created_at] can not be read again: [Token.get] on its hash, and
    [User.token] for a user whose list it heads, raise ValueError, for as
    long as the record stays as [save] left it. *)
Theorem Token_saved_at_whole_second_unreadable ext (t : Token) (w : world) :
  dt_valid (created_at t) = true → microsecond (created_at t) = 0 →
  ∃ w',
    Token_save t w = (Return (), w')
    ∧ hashes (con w') !! Token_redis_key t ≫= (.!! "created_at")
      = Some (dt_str (created_at t))
    ∧ strptime (dt_str (created_at t)) = Raise ValueError
    ∧ ∀ later w2,
        hashes (con w2) !! Token_redis_key t = hashes (con w') !! Token_redis_key t →
        Token_get ext later (hash t) w2 = (Raise ValueError, w2)
        ∧ ∀ u rest,
            lists (con w2) !! (User_redis_key u +:+ ":tokens")
              = Some (Token_redis_key t :: rest) →
            User_token ext later u w2 = (Raise ValueError, w2).
Proof.
  intros Hv Hus. eexists. split; [apply Token_save_eq|].
  cbn [con hashes]. rewrite lookup_insert_eq.
  destruct (token_record_fields t (default ∅ (hashes (con w) !! Token_redis_key t)))
    as (F1 & F2 & _).
  assert (strptime (dt_str (created_at t)) = Raise ValueError) as Hparse.
  { rewrite strptime_dt_str by done. by rewrite Hus. }
  split; [by cbn; rewrite F2|]. split; [done|].
  intros later w2 Hsame. split.
  - unfold Token_get. rewrite M_bind_unfold, hgetall_eq.
    change ("token:" +:+ hash t) with (Token_redis_key t). rewrite Hsame.
    cbn [default from_option id].
    rewrite bool_decide_eq_true_2 by (by eapply map_nonempty_lookup).
    by eapply Token_from_dict_unreadable.
  - intros u rest Hl. unfold User_token, lrange.
    rewrite M_bind_unfold, Hl. cbn [default from_option id drop take py_index lookup].
    cbn. rewrite M_bind_unfold, hgetall_eq, Hsame. cbn [default from_option id].
    rewrite M_bind_unfold.
    by erewrite Token_from_dict_unreadable.
Qed.

Lemma Token_saved_at_whole_second_unreadable_witness :
  ∃ w',
    Token_save whole_second_token empty_world = (Return (), w')
    ∧ hashes (con w') !! Token_redis_key whole_second_token ≫= (.!! "created_at")
      = Some (dt_str (created_at whole_second_token))
    ∧ strptime (dt_str (created_at whole_second_token)) = Raise ValueError
    ∧ ∀ later w2,
        hashes (con w2) !! Token_redis_key whole_second_token
          = hashes (con w') !! Token_redis_key whole_second_token →
        Token_get sample_ext later (hash whole_second_token) w2 = (Raise ValueError, w2)
        ∧ ∀ u rest,
            lists (con w2) !! (User_redis_key u +:+ ":tokens")
              = Some (Token_redis_key whole_second_token :: rest) →
            User_token sample_ext later u w2 = (Raise ValueError, w2).
Proof.
  apply (Token_saved_at_whole_second_unreadable sample_ext whole_second_token empty_world);
    reflexivity.
Defined.

(** A token issued on a whole second: the user can never be confirmed. *)
Example confirm_after_whole_second_issue :
  let w1 := (User_save alice empty_world).2 in
  let w2 := (User_create_token sample_ext whole_second alice 86400 w1).2 in
  (User_create_token sample_ext whole_second alice 86400 w1).1
    = Return whole_second_token
  ∧ (confirm_user sample_ext new_year_noon "alice" "h0" w2).1 = Raise ValueError.
Proof. split; reflexivity. Qed.

(** ** The current token *)

Lemma stored_user_hashes ext c c' name :
  hashes c' = hashes c → stored_user ext c' name = stored_user ext c name.
Proof.
  intros H. unfold stored_user, User_get, hgetall. munfold. cbn [con fst].
  rewrite H. by repeat case_match.
Qed.

Lemma Token_from_dict_frame ext now attributes w w' :
  hashes (con w') = hashes (con w) → draws w' = draws w →
  (Token_from_dict ext now attributes w').1 = (Token_from_dict ext now attributes w).1.
Proof.
  intros Hh Hd. unfold Token_from_dict, Token_init, Token_generate. munfold.
  destruct (dict_get attributes "hash") as [h|]; [|done].
  destruct (match dict_get attributes "created_at" with
            | Return a => strptime a | Raise e => Raise e end) as [c|]; [|done].
  destruct (dict_get attributes "user") as [n|]; [|done].
  rewrite !User_get_pure, (stored_user_hashes ext (con w) (con w')) by done.
  destruct (stored_user ext (con w) (PStr n)) as [u|]; [|done].
  destruct (match dict_get attributes "expiration_time" with
            | Return a => py_int a | Raise e => Raise e end) as [e|]; [|done].
  destruct (py_truthy (PStr h)); cbn; by rewrite ?Hd.
Qed.

Lemma User_token_head ext now u w :
  User_token ext now u w =
    match default [] (lists (con w) !! (User_redis_key u +:+ ":tokens")) with
    | [] => (Return None, w)
    | key :: older =>
        match Token_from_dict ext now (default ∅ (hashes (con w) !! key)) w with
        | (Return t, w') => (Return (if Token_is_valid now t then Some t else None), w')
        | (Raise e, w') => (Raise e, w')
        end
    end.
Proof.
  unfold User_token, lrange. rewrite M_bind_unfold.
  destruct (default [] _) as [|key older]; [done|].
  cbn [drop take py_index lookup list_lookup]. cbn.
  rewrite M_bind_unfold, hgetall_eq, M_bind_unfold.
  destruct (Token_from_dict _ _ _ _) as [[t|e] w']; [|done].
  by destruct (Token_is_valid now t).
Qed.

(** [User.token] asks the store for the first entry of the user's
    token list and for nothing else of that list.  With an empty list it
    answers None; otherwise it reads the token under the head key and,
    when that can be read, answers it when [is_valid] holds, None when it
    does not; when it can not be read, the exception is passed on.  What
    it answers is the same in every world that differs only in the entries
    behind the head, so an older token is never looked at, valid or not.
    (Of the model: a key that holds another kind of value, and an
    [expires_at] that is no datetime, are left to [list_key_free],
    [hash_key_free] and [Token_expires_at_defined].) *)
Theorem User_token_reads_head ext (now : datetime) (u : User) (w : world) :
  let tokens w := default [] (lists (con w) !! (User_redis_key u +:+ ":tokens")) in
  let read_head key w := Token_from_dict ext now (default ∅ (hashes (con w) !! key)) w in
  (tokens w = [] → User_token ext now u w = (Return None, w))
  ∧ (∀ key older t w',
       tokens w = key :: older → read_head key w = (Return t, w') →
       User_token ext now u w =
         (Return (if Token_is_valid now t then Some t else None), w')
       ∧ (Token_is_valid now t = true → (User_token ext now u w).1 = Return (Some t))
       ∧ (Token_is_valid now t = false → (User_token ext now u w).1 = Return None))
  ∧ (∀ key older e w',
       tokens w = key :: older → read_head key w = (Raise e, w') →
       User_token ext now u w = (Raise e, w'))
  ∧ (∀ w2,
       hashes (con w2) = hashes (con w) → draws w2 = draws w →
       head (tokens w2) = head (tokens w) →
       (User_token ext now u w2).1 = (User_token ext now u w).1).
Proof.
  cbv zeta. rewrite User_token_head. split; [by intros ->|].
  split; [|split].
  - intros key older t w' -> ->. split; [done|]. split; by intros ->.
  - by intros key older e w' -> ->.
  - intros w2 Hh Hd Hhead. rewrite User_token_head.
    destruct (default [] (lists (con w2) !! _)) as [|k2 o2],
             (default [] (lists (con w) !! _)) as [|k o]; simplify_eq/=; [done|].
    rewrite Hh.
    pose proof (Token_from_dict_frame ext now (default ∅ (hashes (con w) !! k)) w w2 Hh Hd) as Hf.
    destruct (Token_from_dict _ _ _ w2) as [[t2|e2] w2'],
             (Token_from_dict _ _ _ w) as [[t1|e1] w1']; by simplify_eq/=.
Qed.

(** The head of the list expired, the entry behind it has not: no current
    token, although [Token.get] still finds the older one valid. *)
Example User_token_skips_older_valid :
  lists (con two_token_world) !! (User_redis_key alice +:+ ":tokens")
    = Some ["token:h1"; "token:h0"]
  ∧ (User_token sample_ext new_year_noon alice two_token_world).1 = Return None
  ∧ ∃ t, (Token_get sample_ext new_year_noon "h0" two_token_world).1 = Return t
         ∧ hash t = "h0" ∧ Token_is_valid new_year_noon t = true.
Proof.
  split; [reflexivity|]. split; [reflexivity|].
  eexists. split; [reflexivity|]. split; reflexivity.
Qed.

(** ** Confirming a user *)

Lemma stored_user_lookup ext c c' name :
  hashes c' !! ("user:" +:+ py_str name) = hashes c !! ("user:" +:+ py_str name) →
  stored_user ext c' name = stored_user ext c name.
Proof.
  intros H. unfold stored_user, User_get, hgetall. munfold. cbn [con fst].
  rewrite H. by repeat case_match.
Qed.

(** What an accepted confirmation leaves in the store. *)
Lemma confirmed_world_facts ext name usr t w :
  wf_store (con w) →
  stored_user ext (con w) (PStr name) = Return usr →
  let w' := confirmed_world usr t w in
  hashes (con w') !! ("user:" +:+ name) ≫= (.!! "enabled") = Some "True"
  ∧ hashes (con w') !! Token_redis_key t ≫= (.!! "expiration_time") = Some "0"
  ∧ outbox w' = (outbox w ++ [(email usr, "Welcome to Kytos Napps Respository")])%list
  ∧ lists (con w') = lists (con w)
  ∧ ∃ u', stored_user ext (con w') (PStr name) = Return u'
          ∧ username u' = PStr name ∧ enabled u' = PBool true.
Proof.
  intros Hwf Hu.
  destruct (stored_user_wf _ _ _ _ Hwf Hu) as (Hn & b & Hp & Hb).
  set (user1 := set_enabled usr (PBool true)).
  assert (User_save user1 w = (Return (), after_user_save user1 (PBytes b) w)) as Hsave.
  { apply User_save_eq; [done|]. cbn. by destruct (String.eqb_spec b ""). }
  cbv zeta. unfold confirmed_world. fold user1.
  rewrite Hsave, Token_invalidate_eq, Token_save_eq. cbn [snd].
  unfold User_send_welcome. cbn [enabled user1 set_enabled py_truthy negb].
  unfold User_send_email. cbn [snd con hashes lists outbox email].
  set (t0 := mk_token (hash t) (created_at t) (user t) 0).
  assert (Token_redis_key t0 = Token_redis_key t) as Hk by done.
  assert (Token_redis_key t ≠ "user:" +:+ name) as Hne by apply token_key_not_user.
  assert (User_redis_key usr = "user:" +:+ name) as Hku.
  { unfold User_redis_key. by rewrite Hn. }
  pose proof (user_record_fields user1 (PBytes b)
                (default ∅ (hashes (con w) !! User_redis_key user1))) as F.
  cbn zeta in F. destruct F as (_ & _ & _ & _ & _ & _ & _ & _ & Fe & _).
  split; [|split; [|split; [|split]]].
  - rewrite Hk, lookup_insert_ne by done. unfold after_user_save. cbn [con hashes].
    change (User_redis_key user1) with (User_redis_key usr) in *. rewrite Hku in *.
    rewrite lookup_insert_eq. cbn. exact Fe.
  - rewrite Hk, lookup_insert_eq. cbn.
    by rewrite (proj2 (proj2 (proj2 (token_record_fields t0 _)))).
  - done.
  - done.
  - destruct (stored_user_after_save ext user1 b name w name usr) as (u' & Hu' & Hun & Hen);
      [done|done|done|reflexivity|done|].
    exists u'. split; [|split].
    + rewrite <-Hu'. apply stored_user_lookup. cbn [con hashes py_str].
      by rewrite Hk, lookup_insert_ne.
    + by rewrite Hun.
    + by apply Hen.
Qed.

(** In a store as the save methods leave it, and where [user.token] does
    not raise (see [confirm_user_whole_second_token] for where it does),
    [confirm_user] answers
    - 404 when there is no user of that name;
    - 400 when the user has no current token (none at all, or the head of
      the list no longer valid, even if its hash is the one presented), and
      when the current token's hash is not the one presented;
    - 200 exactly when the user exists, has a current token and the hash
      presented is that token's; the user is then stored as enabled, the
      token is stored with an [expiration_time] of 0 and the welcome mail is
      sent.
    Only the last case changes the world.  (Of the model: a key that holds
    another kind of value, and an [expires_at] that is no datetime, are
    left to [hash_key_free], [list_key_free] and
    [Token_expires_at_defined].) *)
Theorem confirm_user_spec ext (now : datetime) (name token : string) (w : world) :
  wf_store (con w) →
  (stored_user ext (con w) (PStr name) = Raise NappsEntryDoesNotExists →
     confirm_user ext now name token w
       = (Return (mk_response "User not found" 404), w))
  ∧ (∀ usr, stored_user ext (con w) (PStr name) = Return usr →
       (current_token ext now (con w) usr = Return None →
          confirm_user ext now name token w
            = (Return (mk_response "Invalid token" 400), w))
       ∧ (∀ t, current_token ext now (con w) usr = Return (Some t) →
            hash t ≠ token →
            confirm_user ext now name token w
              = (Return (mk_response "Invalid token" 400), w))
       ∧ (∀ key older t,
            lists (con w) !! (User_redis_key usr +:+ ":tokens") = Some (key :: older) →
            stored_token ext now (con w) (default ∅ (hashes (con w) !! key)) = Return t →
            Token_is_valid now t = false →
            confirm_user ext now name (hash t) w
              = (Return (mk_response "Invalid token" 400), w))
       ∧ (∀ t, current_token ext now (con w) usr = Return (Some t) →
            hash t = token →
            ∃ w',
              confirm_user ext now name token w = (Return (mk_response "" 200), w')
              ∧ hashes (con w') !! ("user:" +:+ name) ≫= (.!! "enabled") = Some "True"
              ∧ hashes (con w') !! Token_redis_key t ≫= (.!! "expiration_time")
                = Some "0"
              ∧ outbox w'
                = (outbox w ++ [(email usr, "Welcome to Kytos Napps Respository")])%list
              ∧ ∃ u', stored_user ext (con w') (PStr name) = Return u'
                      ∧ username u' = PStr name ∧ enabled u' = PBool true))
  ∧ ((confirm_user ext now name token w).1 = Return (mk_response "" 200)
       ↔ ∃ usr t, stored_user ext (con w) (PStr name) = Return usr
                  ∧ current_token ext now (con w) usr = Return (Some t)
                  ∧ hash t = token).
Proof.
  intros Hwf. rewrite !confirm_user_cases by done.
  split; [by intros ->|]. split.
  - intros usr Hu. rewrite Hu. split; [by intros ->|]. split; [|split].
    + intros t -> Hne. by apply String.eqb_neq in Hne as ->.
    + intros key older t Hl Hst Hv. rewrite confirm_user_cases, Hu by done.
      by rewrite (current_token_intro ext now _ _ _ _ _ Hl Hst), Hv.
    + intros t Ht <-. rewrite Ht, String.eqb_refl.
      rewrite (confirm_accepted_ok ext now name usr t w) by done.
      destruct (confirmed_world_facts ext name usr t w Hwf Hu) as (F1 & F2 & F3 & _ & F4).
      eexists. split; [done|]. done.
  - split.
    + destruct (stored_user ext (con w) (PStr name)) as [usr|e] eqn:Hu.
      2: { by destruct e. }
      destruct (current_token ext now (con w) usr) as [[t|]|e] eqn:Ht; try done.
      destruct (String.eqb (hash t) token) eqn:Eh; [|done].
      apply String.eqb_eq in Eh. intros _. by exists usr, t.
    + intros (usr & t & Hu & Ht & <-). rewrite Hu, Ht, String.eqb_refl.
      by rewrite (confirm_accepted_ok ext now name usr t w) by done.
Qed.

Lemma wf_store_empty : wf_store (con empty_world).
Proof. apply map_Forall_empty. Qed.

Lemma User_create_token_eq ext now u e w :
  let t := mk_token (urandom_hash ext (draws w)) now u e in
  User_create_token ext now u e w =
    (Return t,
     (lpush (User_redis_key u +:+ ":tokens") (Token_redis_key t)
        (Token_save t (mk_world (con w) (outbox w) (S (draws w)))).2).2).
Proof. done. Qed.

Lemma User_create_token_wf ext now u e w :
  wf_store (con w) → urandom_hash ext (draws w) ≠ "" →
  wf_store (con (User_create_token ext now u e w).2).
Proof.
  intros Hwf Hne. rewrite User_create_token_eq. cbv zeta. cbn [snd].
  set (t := mk_token _ _ _ _).
  set (w1 := mk_world _ _ _).
  change (wf_store (con (Token_save t w1).2)).
  by apply Token_save_wf.
Qed.

Lemma pending_world_wf : wf_store (con pending_world).
Proof.
  unfold pending_world. cbv zeta. apply User_create_token_wf; [|done].
  rewrite (User_save_eq alice (PBytes "$2b$12$hash") empty_world) by done.
  apply (User_save_wf alice "$2b$12$hash" "alice"); [apply wf_store_empty|done|done].
Qed.

Lemma confirm_user_spec_witness :
  wf_store (con pending_world)
  ∧ (confirm_user sample_ext new_year_noon "alice" "h0" pending_world).1
    = Return (mk_response "" 200).
Proof.
  split; [exact pending_world_wf|].
  apply (confirm_user_spec sample_ext new_year_noon "alice" "h0" pending_world
           pending_world_wf).
  exists alice_stored, (mk_token "h0" new_year alice_stored 86400).
  split; [|split]; reflexivity.
Defined.

(** ** Registering a user; the artifact store on a sample host *)

Lemma _napp_versioned_name_raises_witness :
  _napp_versioned_name sample_re_compile sample_listdir "20240101" "alice" "foo"
    = Raise TypeError.
Proof.
  apply (_napp_versioned_name_raises sample_re_compile sample_listdir "20240101"
           "alice" "foo" sample_match ["foo20240101-0.napp"]); reflexivity.
Defined.

Lemma User_init_password u p e f l :
  User_init [("username", u); ("password", p); ("email", e);
             ("first_name", f); ("last_name", l)] = Raise TypeError.
Proof. reflexivity. Qed.

(** C4.  [register_user] on a request that carries the five required
    fields.  When the username is taken it answers 401, "Username already
    exists", and writes nothing.  When the username is free it raises
    TypeError and writes nothing either: the call [User(username=...,
    password=..., ...)] names a parameter [User.__init__] does not have.
    No request is ever answered 201, and no user is ever created. *)
Theorem register_user_never_creates ext (now : datetime)
    (content : gmap string pyval) (w : world) name p e f l :
  content !! "username" = Some name → content !! "password" = Some p →
  content !! "email" = Some e → content !! "first_name" = Some f →
  content !! "last_name" = Some l →
  (∀ usr, stored_user ext (con w) name = Return usr →
     register_user ext now content w
       = (Return (mk_response "Username already exists" 401), w))
  ∧ (stored_user ext (con w) name = Raise NappsEntryDoesNotExists →
       register_user ext now content w = (Raise TypeError, w))
  ∧ (register_user ext now content w).2 = w
  ∧ (register_user ext now content w).1 ≠ Return (mk_response "" 201).
Proof.
  intros Hn Hp He Hf Hl.
  assert (register_user ext now content w =
            match stored_user ext (con w) name with
            | Return _ => (Return (mk_response "Username already exists" 401), w)
            | Raise NappsEntryDoesNotExists => (Raise TypeError, w)
            | Raise e => (Raise e, w)
            end) as ->.
  { unfold register_user, try_except, dict_get. rewrite M_bind_unfold.
    rewrite M_bind_unfold. unfold lift at 1. rewrite Hn, User_get_pure.
    destruct (stored_user ext (con w) name) as [usr|e0]; [done|].
    destruct e0; try done.
    cbn [decide]. rewrite decide_True by done.
    unfold lift.
    do 5 (rewrite M_bind_unfold, ?Hn, ?Hp, ?He, ?Hf, ?Hl; cbn beta iota).
    by rewrite M_bind_unfold, User_init_password. }
  split; [by intros usr ->|]. split; [by intros ->|].
  destruct (stored_user ext (con w) name) as [usr|e0]; [done|].
  by destruct e0.
Qed.

Lemma register_user_never_creates_witness :
  register_user sample_ext new_year bob_request empty_world = (Raise TypeError, empty_world).
Proof.
  apply (register_user_never_creates sample_ext new_year bob_request empty_world
           (PStr "bob") (PStr "secret") (PStr "b@x.com") (PStr "Bob") (PStr "B"));
    reflexivity.
Defined.

(** ** Napps: populating *)

Section NappFacts.
Context (ext : Collaborators).

(** One turn of the loop of [_populate_from_dict]. *)
Lemma populate_key_inv self attrs key type self' attrs' :
  populate_key ext (self, attrs) (key, type) = Return (self', attrs') →
  key ≠ "user" →
  (key ∈ Napp_required → is_Some (attrs !! key))
  ∧ (∀ k, k ≠ key → attrs' !! k = attrs !! k)
  ∧ (type ≠ "array" → attrs' = attrs)
  ∧ (type = "array" →
       match attrs !! key with
       | Some (PList l) => attrs' = attrs
       | other => ∃ v, eval_arg ext (default (PList []) other) = Return v
                       ∧ attrs' = <[key := v]> attrs
       end)
  ∧ self' = Napp_setattr self key (default PNone (attrs' !! key)).
Proof.
  intros H Hne. unfold populate_key in H.
  rewrite bool_decide_eq_true_2 in H by done.
  destruct (bool_decide (key ∈ Napp_required) && bool_decide (attrs !! key = None))
    eqn:Hreq; [done|].
  split.
  { intros Hin. rewrite bool_decide_eq_true_2 in Hreq by done.
    cbn in Hreq. apply bool_decide_eq_false in Hreq.
    by destruct (attrs !! key). }
  destruct (String.eqb type "array") eqn:Ht.
  - apply String.eqb_eq in Ht as ->.
    destruct (attrs !! key) as [v|] eqn:Ev.
    + destruct v; cbn in H;
        try (destruct (py_eval ext s) as [v'|] eqn:Ee; [|done]; cbn in H;
             injection H as <- <-;
             split; [by intros; rewrite lookup_insert_ne|];
             split; [done|]; split; [intros _; by eexists|done]);
        try done.
      rewrite Ev in H. injection H as <- <-.
      split; [done|]. split; [done|]. split; [done|]. by rewrite Ev.
    + cbn in H. done.
  - apply String.eqb_neq in Ht. cbn in H. injection H as <- <-.
    split; [done|]. split; [done|]. split; [done|done].
Qed.

Lemma populate_key_user self attrs type :
  populate_key ext (self, attrs) ("user", type) = Return (self, attrs).
Proof. done. Qed.

(** The whole loop, over keys that do not repeat. *)
Lemma foldM_populate_key entries : ∀ self attrs self' attrs',
  NoDup entries.*1 →
  foldM (populate_key ext) (self, attrs) entries = Return (self', attrs') →
  Napp_user self' = Napp_user self
  ∧ (∀ k, k ∉ entries.*1 ∨ k = "user" →
       attrs' !! k = attrs !! k ∧ Napp_dict self' !! k = Napp_dict self !! k)
  ∧ (∀ k t, (k, t) ∈ entries → k ≠ "user" →
       (k ∈ Napp_required → is_Some (attrs !! k))
       ∧ Napp_dict self' !! k = Some (default PNone (attrs' !! k))
       ∧ (t ≠ "array" → attrs' !! k = attrs !! k)
       ∧ (t = "array" →
            match attrs !! k with
            | Some (PList l) => attrs' !! k = Some (PList l)
            | other => ∃ v, eval_arg ext (default (PList []) other) = Return v
                            ∧ attrs' !! k = Some v
            end)).
Proof.
  induction entries as [|[key type] rest IH]; intros self attrs self' attrs' Hnd H.
  { cbn in H. injection H as <- <-. split; [done|]. split; [done|].
    intros k t Hin. by apply elem_of_nil in Hin. }
  cbn [foldM] in H. cbn [fmap list_fmap fst] in Hnd.
  apply NoDup_cons in Hnd as [Hkey Hnd].
  destruct (populate_key ext (self, attrs) (key, type)) as [[s1 a1]|] eqn:Hstep;
    [|done].
  cbn in H. destruct (IH s1 a1 self' attrs' Hnd H) as (IHu & IHout & IHin).
  destruct (decide (key = "user")) as [->|Hku].
  { rewrite populate_key_user in Hstep. injection Hstep as <- <-.
    split; [done|]. split.
    - intros k [Hk| ->].
      + apply IHout. left. intros Hin. apply Hk. cbn. by right.
      + apply IHout. by right.
    - intros k t [[= -> ->]|Hin]%elem_of_cons Hk; [done|]. by apply IHin. }
  apply populate_key_inv in Hstep as (Sreq & Sother & Sstr & Sarr & ->); [|done].
  split; [by rewrite IHu|]. split.
  - intros k Hk. destruct (decide (k = key)) as [->|Hne].
    { destruct Hk as [Hk| ->]; [|done]. exfalso. apply Hk. cbn. by left. }
    destruct (IHout k) as [E1 E2].
    { destruct Hk as [Hk|Hk]; [left|by right]. intros Hin. apply Hk. cbn. by right. }
    rewrite E1, E2, Sother by done. cbn. by rewrite lookup_insert_ne.
  - intros k t [[= -> ->]|Hin]%elem_of_cons Hk.
    + destruct (IHout key (or_introl Hkey)) as [E1 E2].
      split; [done|]. split.
      { rewrite E2, E1. cbn. by rewrite lookup_insert_eq. }
      split.
      { intros Ht. rewrite E1. by rewrite (Sstr Ht). }
      intros Ht. specialize (Sarr Ht). rewrite E1.
      destruct (attrs !! key) as [[]|] eqn:Ev;
        try (destruct Sarr as (v & Hv & ->); exists v;
             split; [done|apply lookup_insert_eq]).
      by rewrite Sarr.
    + assert (k ≠ key) as Hne.
      { intros ->. apply Hkey. apply list_elem_of_fmap. by exists (key, t). }
      destruct (IHin k t Hin Hk) as (I1 & I2 & I3 & I4).
      rewrite Sother in I1, I3, I4 by done. done.
Qed.

Lemma Napp_schema_NoDup : NoDup Napp_schema.*1.
Proof. cbn. repeat (apply NoDup_cons; split; [set_solver|]). apply NoDup_nil_2. Qed.

End NappFacts.

(** ** Napps: creating, updating, the remote repository *)

Ltac in_list :=
  apply list_elem_of_In; cbn; repeat (first [left; reflexivity | right]); fail.

Lemma Napp_required_schema k :
  k ∈ Napp_required → ∃ t, (k, t) ∈ Napp_schema ∧ k ≠ "user".
Proof.
  intros Hk. apply list_elem_of_In in Hk. cbn in Hk.
  repeat (destruct Hk as [<-|Hk];
          [first [ exists "string"; split; [in_list|done]
                 | exists "array"; split; [in_list|done] ]|]).
  done.
Qed.

Lemma Napp_schema_array k :
  (k, "array") ∈ Napp_schema → k ≠ "user" ∧ k ≠ "readme".
Proof.
  intros Hk. apply list_elem_of_In in Hk. cbn in Hk.
  repeat (destruct Hk as [Hk|Hk]; [by inversion Hk|]).
  done.
Qed.

Section NappClaims.
Context (ext : Collaborators).

Lemma Napp_populate_from_dict_loop self attributes :
  Napp_populate_from_dict ext self attributes =
    match foldM (populate_key ext) (self, attributes) Napp_schema with
    | Return (self1, _) =>
        match Napp_getattr self1 "readme" with
        | Return readme =>
            if negb (py_truthy readme) then
              match Napp_update_readme_from_git ext self1 with
              | Return self2 => Return self2
              | Raise _ => Return self1
              end
            else Return self1
        | Raise e => Raise e
        end
    | Raise e => Raise e
    end.
Proof.
  unfold Napp_populate_from_dict.
  destruct (foldM _ _ _) as [[self1 attrs]|]; [|done]. done.
Qed.

Lemma Napp_update_readme_from_git_dict self self' :
  Napp_update_readme_from_git ext self = Return self' →
  Napp_user self' = Napp_user self
  ∧ ∃ text, Napp_dict self' = <["readme" := PStr text]> (Napp_dict self).
Proof.
  unfold Napp_update_readme_from_git. intros H.
  destruct (Napp_url_for_raw_file_from_git self) as [base|]; [|done]. cbn in H.
  destruct (urlopen_read ext _) as [text|]; [|done].
  injection H as <-. split; [done|]. by exists text.
Qed.

(** What a successful [_populate_from_dict] leaves on the object. *)
Lemma Napp_populate_from_dict_inv self attributes napp :
  Napp_populate_from_dict ext self attributes = Return napp →
  Napp_user napp = Napp_user self
  ∧ (∀ k, k ∈ Napp_required → is_Some (attributes !! k))
  ∧ (∀ k t, (k, t) ∈ Napp_schema → k ≠ "user" → k ≠ "readme" → t ≠ "array" →
       Napp_dict napp !! k = Some (default PNone (attributes !! k)))
  ∧ (∀ k, (k, "array") ∈ Napp_schema →
       match attributes !! k with
       | Some (PList l) => Napp_dict napp !! k = Some (PList l)
       | other => ∃ v, eval_arg ext (default (PList []) other) = Return v
                       ∧ Napp_dict napp !! k = Some v
       end).
Proof.
  rewrite Napp_populate_from_dict_loop.
  destruct (foldM _ _ _) as [[self1 attrs]|] eqn:Hloop; [|done].
  apply foldM_populate_key in Hloop as (Hu & Hout & Hin); [|apply Napp_schema_NoDup].
  match goal with
  | |- _ → ?G =>
      assert ((∀ k, k ≠ "readme" → Napp_dict napp !! k = Napp_dict self1 !! k) →
              Napp_user napp = Napp_user self1 → G) as Hgo
  end.
  { intros Hsame Hu1. split; [by rewrite Hu1|]. split.
    { intros k Hk. destruct (Napp_required_schema k Hk) as (t & Ht & Hne).
      by apply (Hin k t). }
    split.
    { intros k t Hk Hne Hr Ht. destruct (Hin k t Hk Hne) as (_ & Hd & Hs & _).
      by rewrite Hsame, Hd, Hs. }
    intros k Hk.
    destruct (Napp_schema_array k Hk) as [Hne Hr].
    destruct (Hin k "array" Hk Hne) as (_ & Hd & _ & Ha).
    specialize (Ha eq_refl). rewrite Hsame by done. rewrite Hd.
    destruct (attributes !! k) as [[]|]; try by rewrite Ha.
    all: destruct Ha as (v & Hv & ->); by exists v. }
  destruct (Napp_getattr self1 "readme") as [readme|]; [|done].
  destruct (negb (py_truthy readme)).
  - destruct (Napp_update_readme_from_git ext self1) as [self2|] eqn:Hup.
    + intros [= <-]. apply Napp_update_readme_from_git_dict in Hup as (Hu2 & text & Hd).
      apply Hgo; [|done]. intros k Hk. by rewrite Hd, lookup_insert_ne.
    + intros [= <-]. by apply Hgo.
  - intros [= <-]. by apply Hgo.
Qed.

Lemma Napp_save_eq self key author data w :
  Napp_redis_key self = Return key →
  Napp_getattr self "author" = Return author →
  Napp_as_dict ext self = Return data →
  Napp_save ext self w =
    (Return (),
     mk_world (mk_redis
        (<[key := (redis_encode <$> data) ∪ default ∅ (hashes (con w) !! key)]>
           (hashes (con w)))
        (let s1 := <["napps" := {[key]} ∪ default ∅ (sets (con w) !! "napps")]>
                     (sets (con w)) in
         <["user:" +:+ py_str author +:+ ":napps" :=
             {[key]} ∪ default ∅ (s1 !! ("user:" +:+ py_str author +:+ ":napps"))]> s1)
        (lists (con w)))
       (outbox w) (draws w)).
Proof.
  intros Hk Ha Hd. unfold Napp_save. rewrite Hk, Ha, Hd. done.
Qed.

Lemma Napp_update_from_dict_raises existing attributes w :
  Napp_update_from_dict ext existing attributes w = (Raise AttributeError, w).
Proof.
  unfold Napp_update_from_dict, Napp_user_username.
  rewrite M_bind_unfold. unfold lift at 1.
  destruct (Napp_user existing); [|done].
  rewrite M_bind_unfold. unfold lift at 1. by destruct attributes.
Qed.

(** C5.  [new_napp_from_dict] with a [User]: once the attributes populate,
    they hold an author and a name; when the author is not the user's name
    the call raises InvalidAuthor and writes nothing; when it is, and the
    readme renders, the napp is returned, its mapping is stored under its
    key and the key is in both indices.  [update_from_dict], however, never
    compares the owner with the new author: it asks the attributes for an
    attribute [author], which no [dict] has, and raises AttributeError
    whatever the owner and the attributes are, writing nothing. *)
Theorem Napp_new_and_update (attributes : gmap string pyval) (usr : User)
    (napp : Napp) (w : world) :
  Napp_populate_from_dict ext (mk_napp (Some usr) ∅) attributes = Return napp →
  ∃ author name,
    attributes !! "author" = Some author ∧ attributes !! "name" = Some name
    ∧ (py_eqb (username usr) author = false →
         Napp_new_napp_from_dict ext attributes (Some (inl usr)) w
           = (Raise InvalidAuthor, w))
    ∧ (py_eqb (username usr) author = true →
         ∀ data, Napp_as_dict ext napp = Return data →
           ∃ w',
             Napp_new_napp_from_dict ext attributes (Some (inl usr)) w
               = (Return napp, w')
             ∧ hashes (con w') !! ("napp:" +:+ py_str author +:+ "/" +:+ py_str name)
               = Some ((redis_encode <$> data)
                       ∪ default ∅ (hashes (con w)
                                      !! ("napp:" +:+ py_str author +:+ "/" +:+ py_str name)))
             ∧ ("napp:" +:+ py_str author +:+ "/" +:+ py_str name)
                 ∈ default ∅ (sets (con w') !! "napps")
             ∧ ("napp:" +:+ py_str author +:+ "/" +:+ py_str name)
                 ∈ default ∅ (sets (con w') !! ("user:" +:+ py_str author +:+ ":napps")))
    ∧ (∀ existing (new_attributes : json) w0,
         Napp_update_from_dict ext existing new_attributes w0
           = (Raise AttributeError, w0)).
Proof.
  intros Hpop.
  destruct (Napp_populate_from_dict_inv _ _ _ Hpop) as (Hu & Hreq & Hstr & _).
  destruct (Hreq "author") as [author Ha]; [in_list|].
  destruct (Hreq "name") as [name Hn]; [in_list|].
  pose proof (Hstr "author" "string") as Had. rewrite Ha in Had.
  pose proof (Hstr "name" "string") as Hnd. rewrite Hn in Hnd.
  cbn in Had, Hnd.
  assert (Napp_getattr napp "author" = Return author) as Hga.
  { unfold Napp_getattr. rewrite Had; [done|in_list|done..]. }
  assert (Napp_redis_key napp = Return ("napp:" +:+ py_str author +:+ "/" +:+ py_str name))
    as Hkey.
  { unfold Napp_redis_key. rewrite Hga. cbn. unfold Napp_getattr.
    rewrite Hnd; [done|in_list|done..]. }
  exists author, name. split; [done|]. split; [done|].
  assert (∀ k : Napp → M Napp,
            (Napp_init ext (Some attributes) (Some (inl usr)) ≫= k) w = k napp w)
    as Hinit.
  { intros k. rewrite M_bind_unfold. unfold Napp_init.
    rewrite M_bind_unfold. cbn [mret M_ret]. unfold lift. by rewrite Hpop. }
  split; [|split].
  - intros Hne. unfold Napp_new_napp_from_dict. rewrite Hinit.
    unfold Napp_user_username. rewrite Hu. cbn [Napp_user].
    unfold lift. rewrite !M_bind_unfold, Hga, Hne. done.
  - intros Heq data Hd. unfold Napp_new_napp_from_dict. rewrite Hinit.
    unfold Napp_user_username. rewrite Hu. cbn [Napp_user].
    unfold lift. rewrite !M_bind_unfold, Hga, Heq. cbn [negb].
    rewrite M_bind_unfold, (Napp_save_eq napp _ author data w Hkey Hga Hd).
    eexists. split; [done|]. cbn [con hashes sets].
    split; [by rewrite lookup_insert_eq|]. split.
    + destruct (decide ("user:" +:+ py_str author +:+ ":napps" = "napps")) as [E|E].
      * rewrite E, lookup_insert_eq. cbn. rewrite lookup_insert_eq. set_solver.
      * rewrite lookup_insert_ne, lookup_insert_eq by done. set_solver.
    + rewrite lookup_insert_eq. set_solver.
  - apply Napp_update_from_dict_raises.
Qed.

(** C9.  [update_from_git] on a napp whose raw-file URL can be built: when
    [kytos.json] can not be fetched, or what is fetched does not parse, the
    caller gets RepositoryNotReachable.  [_populate_from_dict]: once its
    loop is through and has left the napp without readme, the README is
    asked for; whatever that raises, RepositoryNotReachable for a failed
    fetch included, is dropped, the napp is returned as the loop left it and
    its readme is still the empty value it was given. *)
Theorem remote_failure_policy (self : Napp) (w : world) :
  (∀ base, Napp_url_for_raw_file_from_git self = Return base →
     (urlopen_read ext (base +:+ "kytos.json") = None
      ∨ ∃ text, urlopen_read ext (base +:+ "kytos.json") = Some text
                ∧ json_loads ext text = None) →
     Napp_update_from_git ext self w = (Raise RepositoryNotReachable, w))
  ∧ (∀ base, Napp_url_for_raw_file_from_git self = Return base →
       urlopen_read ext (base +:+ "README.rst") = None →
       Napp_update_readme_from_git ext self = Raise RepositoryNotReachable)
  ∧ (∀ attributes populated attrs e,
       foldM (populate_key ext) (self, attributes) Napp_schema
         = Return (populated, attrs) →
       py_truthy (default PNone (attributes !! "readme")) = false →
       Napp_update_readme_from_git ext populated = Raise e →
       Napp_populate_from_dict ext self attributes = Return populated
       ∧ Napp_dict populated !! "readme" = Some (default PNone (attributes !! "readme"))).
Proof.
  split; [|split].
  - intros base Hb Hfail. unfold Napp_update_from_git, Napp_json_from_git.
    rewrite M_bind_unfold. unfold lift. rewrite Hb. cbn.
    destruct Hfail as [-> | (text & -> & Hj)]; [done|]. cbn. by rewrite Hj.
  - intros base Hb Hfail. unfold Napp_update_readme_from_git. rewrite Hb. cbn.
    by rewrite Hfail.
  - intros attributes populated attrs e Hloop Hr Hup.
    rewrite Napp_populate_from_dict_loop, Hloop.
    apply foldM_populate_key in Hloop as (_ & _ & Hin); [|apply Napp_schema_NoDup].
    destruct (Hin "readme" "string") as (_ & Hd & Hs & _); [in_list|done|].
    rewrite Hs in Hd by done. unfold Napp_getattr. rewrite Hd. cbn [from_option].
    by rewrite Hr, Hup.
Qed.
End NappClaims.

(** The repository out of reach: the napp is populated all the same, and
    a sync of it fails. *)
Example of_l2ls_offline :
  Napp_populate_from_dict sample_ext (mk_napp None ∅) of_l2ls = Return (of_l2ls_napp None)
  ∧ Napp_url_for_raw_file_from_git (of_l2ls_napp None)
    = Return "https://github.com/alice/napps/raw/master/alice/of_l2ls/"
  ∧ (Napp_update_from_git sample_ext (of_l2ls_napp None) empty_world).1
    = Raise RepositoryNotReachable.
Proof. split; [|split]; reflexivity. Qed.

Lemma Napp_new_and_update_witness :
  ∃ author name,
    of_l2ls !! "author" = Some author ∧ of_l2ls !! "name" = Some name
    ∧ (py_eqb (username alice) author = false →
         Napp_new_napp_from_dict sample_ext of_l2ls (Some (inl alice)) empty_world
           = (Raise InvalidAuthor, empty_world))
    ∧ (py_eqb (username alice) author = true →
         ∀ data, Napp_as_dict sample_ext (of_l2ls_napp (Some alice)) = Return data →
           ∃ w',
             Napp_new_napp_from_dict sample_ext of_l2ls (Some (inl alice)) empty_world
               = (Return (of_l2ls_napp (Some alice)), w')
             ∧ hashes (con w') !! ("napp:" +:+ py_str author +:+ "/" +:+ py_str name)
               = Some ((redis_encode <$> data)
                       ∪ default ∅ (hashes (con empty_world)
                                      !! ("napp:" +:+ py_str author +:+ "/" +:+ py_str name)))
             ∧ ("napp:" +:+ py_str author +:+ "/" +:+ py_str name)
                 ∈ default ∅ (sets (con w') !! "napps")
             ∧ ("napp:" +:+ py_str author +:+ "/" +:+ py_str name)
                 ∈ default ∅ (sets (con w') !! ("user:" +:+ py_str author +:+ ":napps")))
    ∧ (∀ existing (new_attributes : json) w0,
         Napp_update_from_dict sample_ext existing new_attributes w0
           = (Raise AttributeError, w0)).
Proof.
  apply (Napp_new_and_update sample_ext of_l2ls alice (of_l2ls_napp (Some alice))
           empty_world).
  reflexivity.
Defined.

(** ** Reading back what [str] wrote of an [int] *)

Lemma string_app_nil_r s : s +:+ "" = s.
Proof.
  induction s as [|c s IH]; [done|].
  change (String c (s +:+ "") = String c s). by rewrite IH.
Qed.

Lemma string_rev_app_twice s : ∀ t u,
  String.rev_app (String.rev_app s t) u = String.rev_app t (s +:+ u).
Proof. induction s as [|c s IH]; intros t u; [done|]. cbn. by rewrite IH. Qed.

Lemma string_rev_involutive s : String.rev (String.rev s) = s.
Proof.
  unfold String.rev. rewrite string_rev_app_twice. cbn. apply string_app_nil_r.
Qed.

Lemma digit_value_pretty_N_char n :
  (n < 10)%N → digit_value (pretty_N_char n) = Some (Z.of_N n).
Proof.
  intros H.
  assert (n = 0 ∨ n = 1 ∨ n = 2 ∨ n = 3 ∨ n = 4 ∨ n = 5 ∨ n = 6 ∨ n = 7
          ∨ n = 8 ∨ n = 9)%N as Hn by lia.
  by repeat destruct Hn as [-> | Hn]; try subst n.
Qed.

(** A digit is no blank, no sign and no underscore. *)
Lemma digit_value_char c v :
  digit_value c = Some v →
  is_space c = false ∧ c ≠ "-"%char ∧ c ≠ "+"%char ∧ c ≠ "_"%char.
Proof.
  destruct c as [[] [] [] [] [] [] [] []]; cbv; intros H; try discriminate H;
    repeat split; discriminate.
Qed.

Lemma all_digits_cons c s v ds :
  digit_value c = Some v → all_digits s = Some ds →
  (∀ c' s', s = String c' s' → c' ≠ "_"%char) →
  all_digits (String c s) = Some (v :: ds).
Proof.
  intros Hc Hs Hne. cbn [all_digits]. rewrite Hc. cbn.
  destruct s as [|c' s']; [by injection Hs as <-|].
  specialize (Hne c' s' eq_refl).
  destruct c' as [[] [] [] [] [] [] [] []]; try (by rewrite Hs); done.
Qed.

(** The digits [pretty] writes in front of [s]. *)
Lemma all_digits_pretty_N_go x : ∀ s ds,
  all_digits s = Some ds →
  (∀ c' s', s = String c' s' → ∃ v, digit_value c' = Some v) →
  ∃ dx, all_digits (pretty_N_go x s) = Some (dx ++ ds)%list
        ∧ digits_value dx = Z.of_N x
        ∧ (∀ c' s', pretty_N_go x s = String c' s' → ∃ v, digit_value c' = Some v).
Proof.
  induction (N.lt_wf_0 x) as [x _ IH]; intros s ds Hs Hhead.
  assert (x = 0 ∨ 0 < x)%N as [->|Hpos] by lia.
  { rewrite pretty_N_go_0. by exists []. }
  rewrite pretty_N_go_step by done.
  assert (x `mod` 10 < 10)%N as Hr by (apply N.mod_lt; lia).
  destruct (IH (x `div` 10)%N) with
    (s := String (pretty_N_char (x `mod` 10)) s) (ds := Z.of_N (x `mod` 10) :: ds)
    as (dq & Hq & Hv & Hh).
  - by apply N.div_lt.
  - apply all_digits_cons; [by apply digit_value_pretty_N_char|done|].
    intros c' s' ->. destruct (Hhead c' s' eq_refl) as [v Hv].
    by apply digit_value_char in Hv as (_ & _ & _ & ?).
  - intros c' s' [= <- <-]. eexists. by apply digit_value_pretty_N_char.
  - exists (dq ++ [Z.of_N (x `mod` 10)])%list. split; [|split; [|done]].
    + by rewrite <-(assoc_L (++)).
    + rewrite digits_value_snoc, Hv.
      rewrite (N.div_mod x 10) at 3 by done. lia.
Qed.

Lemma no_space_rev_app s : ∀ t,
  no_space (String.rev_app s t) = no_space s && no_space t.
Proof.
  induction s as [|c s IH]; intros t; [done|]. cbn. rewrite IH. cbn.
  by destruct (is_space c), (no_space s), (no_space t).
Qed.

Lemma no_space_rev s : no_space (String.rev s) = no_space s.
Proof. unfold String.rev. rewrite no_space_rev_app. cbn. apply andb_true_r. Qed.

Lemma skip_spaces_no_space s : no_space s = true → skip_spaces s = s.
Proof.
  destruct s as [|c s]; [done|]. cbn. intros [H _]%andb_true_iff.
  by apply negb_true_iff in H as ->.
Qed.

Lemma strip_no_space s :
  no_space s = true → String.rev (skip_spaces (String.rev (skip_spaces s))) = s.
Proof.
  intros H. rewrite (skip_spaces_no_space s) by done.
  rewrite skip_spaces_no_space by (by rewrite no_space_rev).
  apply string_rev_involutive.
Qed.

Lemma no_space_pretty_N_go x : ∀ s, no_space s = true → no_space (pretty_N_go x s) = true.
Proof.
  induction (N.lt_wf_0 x) as [x _ IH]; intros s Hs.
  assert (x = 0 ∨ 0 < x)%N as [->|Hpos] by lia.
  { by rewrite pretty_N_go_0. }
  rewrite pretty_N_go_step by done. apply IH; [by apply N.div_lt|].
  cbn. rewrite Hs, andb_true_r.
  assert (x `mod` 10 < 10)%N as Hr by (apply N.mod_lt; lia).
  apply digit_value_pretty_N_char, digit_value_char in Hr as (-> & _). done.
Qed.

Lemma unsigned_int_pretty_pos p :
  unsigned_int (pretty_N_go (N.pos p) "") = Return (Z.pos p)
  ∧ no_space (pretty_N_go (N.pos p) "") = true
  ∧ ∃ c s v, pretty_N_go (N.pos p) "" = String c s ∧ digit_value c = Some v.
Proof.
  destruct (all_digits_pretty_N_go (N.pos p) "" []) as (dx & Hd & Hv & Hh);
    [done|done|].
  rewrite app_nil_r in Hd. split; [|split].
  - unfold unsigned_int. rewrite Hd. destruct dx as [|d dx]; [done|].
    by rewrite Hv.
  - by apply no_space_pretty_N_go.
  - destruct (pretty_N_go (N.pos p) "") as [|c s] eqn:E.
    { cbn in Hd. injection Hd as <-. done. }
    destruct (Hh c s eq_refl) as [v Hc]. by exists c, s, v.
Qed.

(** [int(str(z))] is [z]. *)
Lemma py_int_pretty z : py_int (pretty z) = Return z.
Proof.
  destruct z as [|p|p]; [done| |].
  - destruct (unsigned_int_pretty_pos p) as (Hu & Hns & c & s & v & Hs & Hc).
    unfold py_int, pretty, pretty_Z, pretty, pretty_positive, pretty, pretty_N.
    rewrite decide_False by done. rewrite strip_no_space by done.
    rewrite Hs in *. apply digit_value_char in Hc as (_ & Hm & Hp & _).
    destruct c as [[] [] [] [] [] [] [] []]; done.
  - destruct (unsigned_int_pretty_pos p) as (Hu & Hns & _).
    unfold py_int, pretty, pretty_Z, pretty, pretty_positive, pretty, pretty_N.
    rewrite decide_False by done.
    change ("-" +:+ pretty_N_go (N.pos p) "")
      with (String "-" (pretty_N_go (N.pos p) "")).
    rewrite strip_no_space by (cbn [no_space]; by rewrite Hns).
    cbn -[unsigned_int pretty_N_go]. by rewrite Hu.
Qed.

(** ** Round trips through the store *)

Section RoundTrip.
Context (ext : Collaborators) (now : datetime).




Lemma Token_get_pure token w :
  token ≠ "" → wf_store (con w) →
  (Token_get ext now token w).2 = w.
Proof.
  intros Hne Hwf. unfold Token_get. rewrite M_bind_unfold, hgetall_eq.
  destruct (bool_decide _); [|done].
  rewrite Token_from_dict_pure; [done|].
  destruct (hashes (con w) !! ("token:" +:+ token)) as [rec|] eqn:Er; [|done].
  apply Hwf in Er. apply wf_record_spec in Er as (_ & Hh & _).
  cbn. intros E. by destruct (Hh _ E).
Qed.

Lemma Napp_as_dict_inv napp data :
  Napp_as_dict ext napp = Return data →
  (∀ k ty v, (k, ty) ∈ Napp_schema → k ≠ "user" → k ≠ "readme" →
     Napp_dict napp !! k = Some v → data !! k = Some v)
  ∧ data !! "user" = Napp_dict napp !! "author"
  ∧ ∃ html, Napp_readme_html ext napp = Return html
            ∧ data !! "readme" = Some (PStr html).
Proof.
  unfold Napp_as_dict, Napp_getattr.
  destruct (Napp_dict napp !! "author") as [author|] eqn:Ha; [|done].
  cbn [from_option mbind result_bind].
  destruct (Napp_readme_html ext napp) as [html|]; [|done].
  intros [= <-]. split; [|split].
  - intros k ty v Hk Hu Hr Hv. rewrite lookup_insert_ne by done.
    rewrite lookup_insert_ne by done.
    apply list_elem_of_In in Hk. cbn in Hk.
    repeat (destruct Hk as [[= <- <-]|Hk];
            [cbn; rewrite ?Hv; by simplify_map_eq|]).
    done.
  - rewrite lookup_insert_ne by done. by rewrite lookup_insert_eq.
  - exists html. split; [done|]. by rewrite lookup_insert_eq.
Qed.





End RoundTrip.



(** ** Users: saving and showing *)

Lemma user_record_other u pw old f :
  f ∉ user_fields → user_record u pw old !! f = old !! f.
Proof.
  intros Hf. unfold user_record, user_mapping.
  apply lookup_union_r. rewrite lookup_fmap.
  assert (∀ g, g ∈ user_fields → f ≠ g) as Hne by (intros g Hg ->; done).
  unfold user_fields in Hne.
  rewrite !lookup_insert_ne by (apply not_eq_sym, Hne; in_list).
  rewrite lookup_singleton_ne by (apply not_eq_sym, Hne; in_list). done.
Qed.

(** X1. [User.save]: without a password attribute it raises AttributeError,
    with an empty one InvalidAuthor, and it has written nothing. Otherwise,
    where Redis holds neither [users] nor the user's key as another kind of
    value, the record under the user's key holds the password, the key is in the
    [users] index, a field of the old record that [save] does not write is
    still there, and no other key, set, list or mail is touched. *)
Theorem User_save_frame (u : User) (w : world) :
  (password u = None → User_save u w = (Raise AttributeError, w))
  ∧ (∀ pw, password u = Some pw → py_truthy pw = false →
       User_save u w = (Raise InvalidAuthor, w))
  ∧ (∀ pw, password u = Some pw → py_truthy pw = true →
       set_key_free (con w) "users" = true →
       hash_key_free (con w) (User_redis_key u) = true →
       ∃ w', User_save u w = (Return (), w')
         ∧ hashes (con w') !! User_redis_key u ≫= (.!! "password")
           = Some (redis_encode pw)
         ∧ hashes (con w') !! User_redis_key u ≫= (.!! "enabled")
           = Some (redis_encode (enabled u))
         ∧ User_redis_key u ∈ default ∅ (sets (con w') !! "users")
         ∧ (∀ f, f ∉ user_fields →
              hashes (con w') !! User_redis_key u ≫= (.!! f)
              = hashes (con w) !! User_redis_key u ≫= (.!! f))
         ∧ (∀ k, k ≠ User_redis_key u → hashes (con w') !! k = hashes (con w) !! k)
         ∧ (∀ k, k ≠ "users" → sets (con w') !! k = sets (con w) !! k)
         ∧ lists (con w') = lists (con w) ∧ outbox w' = outbox w
         ∧ draws w' = draws w).
Proof.
  split; [|split].
  - intros Hp. unfold User_save. by rewrite Hp.
  - intros pw Hp Ht. unfold User_save. rewrite Hp. cbn [from_option].
    rewrite M_bind_unfold. unfold lift at 1. by rewrite Ht.
  - intros pw Hp Ht _ _. exists (after_user_save u pw w).
    split; [by apply User_save_eq|].
    pose proof (user_record_fields u pw (default ∅ (hashes (con w) !! User_redis_key u)))
      as F. cbn zeta in F.
    destruct F as (_ & _ & _ & _ & _ & _ & _ & _ & Fe & Fp & _).
    unfold after_user_save. cbn [con hashes sets lists outbox draws].
    rewrite !lookup_insert_eq. cbn [mbind option_bind].
    split; [done|]. split; [done|]. split; [set_solver|]. split.
    { intros f Hf. rewrite user_record_other by done.
      by destruct (hashes (con w) !! User_redis_key u). }
    split; [by intros k Hk; rewrite lookup_insert_ne|].
    split; [by intros k Hk; rewrite lookup_insert_ne|]. done.
Qed.

Section UserExtras.
Context (ext : Collaborators).

Lemma get_user_cases name w :
  get_user ext name w =
    match stored_user ext (con w) (PStr name) with
    | Raise NappsEntryDoesNotExists =>
        (Return (mk_json_response {[ "error" := PStr "User not found" ]} 404), w)
    | Raise e => (Raise e, w)
    | Return user =>
        match User_as_dict user true false with
        | Return d => (Return (mk_json_response d 200), w)
        | Raise e => (Raise e, w)
        end
    end.
Proof.
  unfold get_user, try_except. rewrite M_bind_unfold, User_get_pure.
  destruct (stored_user ext _ _) as [user|e]; [|by destruct e].
  rewrite M_bind_unfold. unfold lift. by destruct (User_as_dict user true false).
Qed.

(** X2. [get_user]: whatever the store holds, an answer is either 404 with
    the error text or 200 with the nine profile fields of the stored user,
    and never shows the password; the store is left as it was. *)
Theorem get_user_hides_password (name : string) (w w' : world) (r : json_response) :
  get_user ext name w = (Return r, w') →
  w' = w
  ∧ payload r !! "password" = None
  ∧ ((code r = 404 ∧ payload r = {[ "error" := PStr "User not found" ]}
      ∧ stored_user ext (con w) (PStr name) = Raise NappsEntryDoesNotExists)
     ∨ (code r = 200
        ∧ ∃ u, stored_user ext (con w) (PStr name) = Return u
               ∧ payload r =
                   {[ "username" := username u; "email" := email u;
                      "first_name" := first_name u; "last_name" := last_name u;
                      "phone" := phone u; "city" := city u; "state" := state u;
                      "country" := country u; "enabled" := enabled u ]})).
Proof.
  rewrite get_user_cases.
  destruct (stored_user ext (con w) (PStr name)) as [u|e] eqn:Hu.
  - apply stored_user_inv in Hu as Hinv.
    destruct Hinv as (rec & un & em & fn & ln & ph & ci & st & co & en_s & en & pw
                      & _ & _ & _ & _ & _ & _ & _ & _ & _ & _ & _ & _ & ->).
    cbn. intros [= <- <-]. split; [done|]. split; [by simplify_map_eq|].
    right. split; [done|]. eexists. split; [done|]. cbn.
    by rewrite delete_insert_eq, delete_id by (by simplify_map_eq).
  - destruct e; try done. intros [= <- <-]. split; [done|].
    split; [by simplify_map_eq|]. by left.
Qed.

End UserExtras.

Lemma get_user_hides_password_witness :
  pending_world = pending_world
  ∧ payload alice_view !! "password" = None
  ∧ ((code alice_view = 404 ∧ payload alice_view = {[ "error" := PStr "User not found" ]}
      ∧ stored_user sample_ext (con pending_world) (PStr "alice")
        = Raise NappsEntryDoesNotExists)
     ∨ (code alice_view = 200
        ∧ ∃ u, stored_user sample_ext (con pending_world) (PStr "alice") = Return u
               ∧ payload alice_view =
                   {[ "username" := username u; "email" := email u;
                      "first_name" := first_name u; "last_name" := last_name u;
                      "phone" := phone u; "city" := city u; "state" := state u;
                      "country" := country u; "enabled" := enabled u ]})).
Proof.
  apply (get_user_hides_password sample_ext "alice" pending_world pending_world
           alice_view).
  reflexivity.
Defined.

(** ** Users: tokens, disabling, passwords *)

Lemma user_record_enabled u pw old :
  user_record u pw old !! "enabled" = Some (redis_encode (enabled u)).
Proof. apply (user_record_fields u pw old). Qed.

Section TokenExtras.
Context (ext : Collaborators).

(** X4. [create_token], then [token], for a token whose [expires_at] is a
    datetime and where Redis holds none of the three keys written as
    another kind of value: the new token heads the user's list and is the
    current one for as long as it is valid; the user it carries is the
    stored one. *)
Theorem User_create_token_then_token (now later : datetime) (u u0 : User)
    (e : Z) (w : world) (name : string) :
  wf_store (con w) → username u = PStr name →
  stored_user ext (con w) (PStr name) = Return u0 →
  urandom_hash ext (draws w) ≠ "" →
  dt_valid now = true → microsecond now ≠ 0 →
  Token_expires_at_defined (mk_token (urandom_hash ext (draws w)) now u e) = true →
  set_key_free (con w) "tokens" = true →
  hash_key_free (con w) ("token:" +:+ urandom_hash ext (draws w)) = true →
  list_key_free (con w) (User_redis_key u +:+ ":tokens") = true →
  ∃ w',
    User_create_token ext now u e w
      = (Return (mk_token (urandom_hash ext (draws w)) now u e), w')
    ∧ lists (con w') !! (User_redis_key u +:+ ":tokens")
      = Some (("token:" +:+ urandom_hash ext (draws w))
              :: default [] (lists (con w) !! (User_redis_key u +:+ ":tokens")))
    ∧ User_token ext later u w'
      = (Return (if dt_micros later <=? dt_micros now + e * 1000000
                 then Some (mk_token (urandom_hash ext (draws w)) now u0 e)
                 else None), w').
Proof.
  intros Hwf Hn Hu0 Hh Hv Hus _ _ _ _.
  pose proof (User_create_token_wf ext now u e w Hwf Hh) as Hwf'.
  rewrite User_create_token_eq in *. cbv zeta in *. cbn [snd] in *.
  set (h := urandom_hash ext (draws w)) in *.
  set (t := mk_token h now u e) in *.
  eexists. split; [done|].
  rewrite Token_save_eq in *. unfold lpush, with_con in *.
  cbn [snd con hashes sets lists outbox draws] in *.
  split; [by rewrite lookup_insert_eq|].
  rewrite User_token_pure by done. f_equal.
  set (c' := mk_redis _ _ _).
  destruct (token_record_fields t (default ∅ (hashes (con w) !! Token_redis_key t)))
    as (F1 & F2 & F3 & F4).
  assert (stored_token ext later c' (default ∅ (hashes c' !! Token_redis_key t))
          = Return (mk_token h now u0 e)) as Hst.
  { unfold c' at 2. cbn [hashes]. rewrite lookup_insert_eq. cbn [default from_option id].
    eapply stored_token_intro; try eassumption.
    - rewrite strptime_dt_str by done. cbn [created_at t].
      by apply Z.eqb_neq in Hus as ->.
    - cbn [user t]. rewrite Hn. cbn [redis_encode py_str].
      etrans; [|exact Hu0]. apply stored_user_lookup. unfold c'. cbn [hashes py_str].
      rewrite lookup_insert_ne; [done|]. apply token_key_not_user.
    - apply py_int_pretty. }
  cbn [con].
  rewrite (current_token_intro ext later c' u (Token_redis_key t)
             (default [] (lists (con w) !! (User_redis_key u +:+ ":tokens")))
             (mk_token h now u0 e));
    [done|apply lookup_insert_eq|exact Hst].
Qed.

(** X5. [disable] asks for the current token before it saves: a user with no
    current token is not disabled at all, the call raises AttributeError with
    the store untouched. With a current token, the token is stored with no
    lifetime left and the user as not enabled; when the object has no
    password, only the token is written before [save] raises. *)
Theorem User_disable_needs_token (now : datetime) (u : User) (w : world) :
  wf_store (con w) →
  (current_token ext now (con w) u = Return None →
     User_disable ext now u w = (Raise AttributeError, w))
  ∧ (∀ t pw, current_token ext now (con w) u = Return (Some t) →
       password u = Some pw → py_truthy pw = true →
       ∃ w', User_disable ext now u w = (Return (set_enabled u (PBool false)), w')
             ∧ hashes (con w') !! Token_redis_key t ≫= (.!! "expiration_time")
               = Some "0"
             ∧ hashes (con w') !! User_redis_key u ≫= (.!! "enabled") = Some "False")
  ∧ (∀ t, current_token ext now (con w) u = Return (Some t) →
       password u = None →
       ∃ w', User_disable ext now u w = (Raise AttributeError, w')
             ∧ hashes (con w') !! Token_redis_key t ≫= (.!! "expiration_time")
               = Some "0"
             ∧ hashes (con w') !! User_redis_key u = hashes (con w) !! User_redis_key u).
Proof.
  intros Hwf.
  assert (∀ k : Token → M User,
            ((User_token ext now (set_enabled u (PBool false)) ≫= token_attr) ≫= k) w
            = match current_token ext now (con w) u with
              | Return (Some t) => k t w
              | Return None => (Raise AttributeError, w)
              | Raise e => (Raise e, w)
              end) as Hbind.
  { intros k. rewrite !M_bind_unfold, User_token_pure by done.
    change (current_token ext now (con w) (set_enabled u (PBool false)))
      with (current_token ext now (con w) u).
    by destruct (current_token ext now (con w) u) as [[t|]|]. }
  assert (∀ t, Token_redis_key t ≠ User_redis_key u) as Hkey.
  { intros t. apply token_key_not_user. }
  unfold User_disable. rewrite Hbind. split; [by intros ->|]. split.
  - intros t pw -> Hp Ht.
    rewrite M_bind_unfold, Token_invalidate_eq, Token_save_eq. cbn [snd].
    rewrite M_bind_unfold.
    rewrite (User_save_eq (set_enabled u (PBool false)) pw) by done.
    eexists. split; [done|].
    unfold after_user_save. cbn [con hashes].
    change (User_redis_key (set_enabled u (PBool false))) with (User_redis_key u).
    split.
    + rewrite lookup_insert_ne by (apply not_eq_sym, Hkey).
      change (Token_redis_key (mk_token (hash t) (created_at t) (user t) 0))
        with (Token_redis_key t).
      rewrite lookup_insert_eq. cbn.
      by rewrite (proj2 (proj2 (proj2 (token_record_fields _ _)))).
    + rewrite lookup_insert_eq. cbn. by rewrite user_record_enabled.
  - intros t -> Hp.
    rewrite M_bind_unfold, Token_invalidate_eq, Token_save_eq. cbn [snd].
    rewrite M_bind_unfold. unfold User_save. cbn [password set_enabled].
    rewrite Hp. cbn [from_option]. rewrite M_bind_unfold. unfold lift at 1.
    eexists. split; [done|]. cbn [con hashes].
    change (Token_redis_key (mk_token (hash t) (created_at t) (user t) 0))
      with (Token_redis_key t).
    split.
    + rewrite lookup_insert_eq. cbn.
      by rewrite (proj2 (proj2 (proj2 (token_record_fields _ _)))).
    + by rewrite lookup_insert_ne by apply Hkey.
Qed.

Section BcryptFacts.
Variable bcrypt_hashpw : string → string → string.
Variable bcrypt_checkpw : string → string → result bool.

Lemma User_check_auth_cases name password0 w :
  User_check_auth ext bcrypt_checkpw name password0 w =
    match stored_user ext (con w) name with
    | Raise NappsEntryDoesNotExists => (Return false, w)
    | Raise e => (Raise e, w)
    | Return user =>
        match password user with
        | Some (PBytes hashed) =>
            match bcrypt_checkpw password0 hashed with
            | Return ok => (Return ok, w)
            | Raise e => (Raise e, w)
            end
        | Some _ => (Raise TypeError, w)
        | None => (Raise AttributeError, w)
        end
    end.
Proof.
  unfold User_check_auth, try_except. rewrite M_bind_unfold, User_get_pure.
  destruct (stored_user ext (con w) name) as [user|e]; [|by destruct e].
  destruct (password user) as [[]|]; try done.
  rewrite M_bind_unfold. unfold lift.
  destruct (bcrypt_checkpw password0 s) as [[]|]; done.
Qed.

(** X6. [set_password], then [check_auth], where Redis holds neither
    [users] nor a key read or written as another kind of value: the hash
    is stored with the user,
    and a later [check_auth] under the user's name answers what bcrypt
    answers for the candidate and that hash; under a name the store does not
    hold it answers False. Neither check writes. *)
Theorem set_password_then_check_auth (salt password0 name : string) (u : User)
    (b : bool) (w : world) :
  username u = PStr name → enabled u = PBool b →
  bcrypt_hashpw password0 salt ≠ "" →
  set_key_free (con w) "users" = true →
  hash_key_free (con w) ("user:" +:+ name) = true →
  ∃ w',
    User_set_password bcrypt_hashpw salt u password0 w
      = (Return (set_password_attr u (PBytes (bcrypt_hashpw password0 salt))), w')
    ∧ hashes (con w') !! ("user:" +:+ name) ≫= (.!! "password")
      = Some (bcrypt_hashpw password0 salt)
    ∧ (∀ candidate,
         User_check_auth ext bcrypt_checkpw (PStr name) candidate w'
         = (bcrypt_checkpw candidate (bcrypt_hashpw password0 salt), w'))
    ∧ (∀ other candidate,
         hashes (con w') !! ("user:" +:+ other) = None →
         hash_key_free (con w') ("user:" +:+ other) = true →
         User_check_auth ext bcrypt_checkpw (PStr other) candidate w'
         = (Return false, w')).
Proof.
  intros Hn He Hh _ _.
  set (hashed := bcrypt_hashpw password0 salt) in *.
  set (u1 := set_password_attr u (PBytes hashed)).
  assert (User_save u1 w = (Return (), after_user_save u1 (PBytes hashed) w)) as Hsave.
  { apply User_save_eq; [done|]. cbn. by apply negb_true_iff, String.eqb_neq. }
  exists (after_user_save u1 (PBytes hashed) w).
  pose proof (user_record_fields u1 (PBytes hashed)
                (default ∅ (hashes (con w) !! User_redis_key u1))) as F.
  cbn zeta in F.
  destruct F as (F1 & F2 & F3 & F4 & F5 & F6 & F7 & F8 & F9 & F10 & _).
  assert (User_redis_key u1 = "user:" +:+ name) as Hk.
  { unfold User_redis_key. cbn. by rewrite Hn. }
  split; [|split; [|split]].
  - unfold User_set_password. fold hashed. fold u1.
    by rewrite M_bind_unfold, Hsave.
  - unfold after_user_save. cbn [con hashes]. rewrite Hk, lookup_insert_eq.
    cbn. rewrite <-Hk. by rewrite F10.
  - intros candidate. rewrite User_check_auth_cases.
    erewrite (stored_user_intro ext _ (PStr name)); try eassumption.
    + cbn. by destruct (bcrypt_checkpw candidate hashed).
    + unfold after_user_save. cbn [con hashes py_str]. rewrite Hk.
      apply lookup_insert_eq.
    + cbn [enabled u1 set_password_attr]. rewrite He. by destruct b.
  - intros other candidate Hnone _. rewrite User_check_auth_cases.
    unfold stored_user, User_get. rewrite M_bind_unfold, hgetall_eq.
    cbn [con py_str]. rewrite Hnone. done.
Qed.
End BcryptFacts.
End TokenExtras.

Lemma User_create_token_then_token_witness :
  ∃ w',
    User_create_token sample_ext new_year alice 86400 (User_save alice empty_world).2
      = (Return (mk_token "h0" new_year alice 86400), w')
    ∧ lists (con w') !! (User_redis_key alice +:+ ":tokens")
      = Some (["token:h0"])
    ∧ User_token sample_ext new_year_noon alice w'
      = (Return (Some (mk_token "h0" new_year alice_stored 86400)), w').
Proof.
  destruct (User_create_token_then_token sample_ext new_year new_year_noon alice
              alice_stored 86400 (User_save alice empty_world).2 "alice")
    as (w' & H1 & H2 & H3);
    [apply (User_save_wf alice "$2b$12$hash" "alice" empty_world wf_store_empty);
       [reflexivity|discriminate]
    |reflexivity|reflexivity|discriminate|reflexivity|discriminate
    |reflexivity|reflexivity|reflexivity|reflexivity|].
  exists w'. split; [exact H1|]. split; [exact H2|exact H3].
Defined.

Lemma User_disable_needs_token_witness :
  User_disable sample_ext new_year_noon alice_stored (User_save alice empty_world).2
    = (Raise AttributeError, (User_save alice empty_world).2).
Proof.
  apply (User_disable_needs_token sample_ext new_year_noon alice_stored
           (User_save alice empty_world).2).
  - apply (User_save_wf alice "$2b$12$hash" "alice" empty_world wf_store_empty);
      [reflexivity|discriminate].
  - reflexivity.
Defined.

Lemma set_password_then_check_auth_witness :
  ∃ w',
    User_set_password sample_hashpw "salt" alice "secret" empty_world
      = (Return (set_password_attr alice (PBytes (sample_hashpw "secret" "salt"))), w')
    ∧ hashes (con w') !! ("user:" +:+ "alice") ≫= (.!! "password")
      = Some (sample_hashpw "secret" "salt")
    ∧ (∀ candidate,
         User_check_auth sample_ext sample_checkpw (PStr "alice") candidate w'
         = (sample_checkpw candidate (sample_hashpw "secret" "salt"), w'))
    ∧ (∀ other candidate,
         hashes (con w') !! ("user:" +:+ other) = None →
         hash_key_free (con w') ("user:" +:+ other) = true →
         User_check_auth sample_ext sample_checkpw (PStr other) candidate w'
         = (Return false, w')).
Proof.
  apply (set_password_then_check_auth sample_ext sample_hashpw sample_checkpw
           "salt" "secret" "alice" alice false empty_world);
    [reflexivity|reflexivity|discriminate|reflexivity|reflexivity].
Defined.

(** ** Napps: addresses, required keys, lookups, saving *)

Lemma string_app_length s t :
  String.length (s +:+ t) = (String.length s + String.length t)%nat.
Proof.
  induction s as [|c s IH]; [done|].
  change (S (String.length (s +:+ t)) = S (String.length s + String.length t)).
  by rewrite IH.
Qed.

Lemma string_app_assoc s t u : (s +:+ t) +:+ u = s +:+ (t +:+ u).
Proof.
  induction s as [|c s IH]; [done|].
  change (String c ((s +:+ t) +:+ u) = String c (s +:+ (t +:+ u))). by rewrite IH.
Qed.

Lemma string_app_cons c s t : String c s +:+ t = String c (s +:+ t).
Proof. done. Qed.

Lemma string_length_0 s : String.length s = 0%nat → s = "".
Proof. by destruct s. Qed.

Ltac length_clash H g :=
  let Hl := fresh "Hl" in
  apply (f_equal String.length) in H as Hl;
  cbn in Hl; rewrite ?string_app_length in Hl; cbn in Hl;
  first [ lia
        | assert (String.length g = 0%nat) as ->%string_length_0 by lia;
          cbv in H; discriminate H
        | assert (String.length g = 1%nat) by lia;
          destruct g as [|? [|? ?]]; [done| |done]; cbv in H; discriminate H ].

(** A string with something in front of [.git] is none of the four texts
    the pattern matches whole. *)
Lemma re_sub_git_suffix_cons_git c g :
  re_sub_git_suffix (String c (g +:+ ".git"))
  = String c (re_sub_git_suffix (g +:+ ".git")).
Proof.
  cbn [re_sub_git_suffix].
  rewrite decide_False, decide_False; [done|..]; intros [H|H]; length_clash H g.
Qed.

Lemma re_sub_git_suffix_cons_git_slash c g :
  re_sub_git_suffix (String c (g +:+ ".git/"))
  = String c (re_sub_git_suffix (g +:+ ".git/")).
Proof.
  cbn [re_sub_git_suffix].
  rewrite decide_False, decide_False; [done|..]; intros [H|H]; length_clash H g.
Qed.

Lemma re_sub_git_suffix_git g : re_sub_git_suffix (g +:+ ".git") = g +:+ "/".
Proof.
  induction g as [|c g IH]; [done|].
  by rewrite string_app_cons, re_sub_git_suffix_cons_git, IH.
Qed.

Lemma re_sub_git_suffix_git_slash g : re_sub_git_suffix (g +:+ ".git/") = g +:+ "/".
Proof.
  induction g as [|c g IH]; [done|].
  by rewrite string_app_cons, re_sub_git_suffix_cons_git_slash, IH.
Qed.

Lemma re_sub_git_suffix_none s :
  has_substring ".git" s = false → re_sub_git_suffix s = s.
Proof.
  induction s as [|c s IH]; [done|].
  cbn [has_substring]. intros [Hp Hs]%orb_false_iff.
  cbn [re_sub_git_suffix].
  rewrite decide_False, decide_False; [by rewrite IH| |].
  - intros [H|H]; by rewrite H in Hp.
  - intros [H|H]; by rewrite H in Hp.
Qed.

Section NappExtras.
Context (ext : Collaborators).

(** X8. [_url_for_raw_file_from_git] on a napp whose [git], [branch],
    [author] and [name] are text. A repository address that ends in [.git] or
    [.git/] loses that ending, and the raw-file path follows a slash. An
    address without [.git] in it is kept whole and the path follows it with
    no slash in between. A [git] that is no text is a TypeError. *)
Theorem Napp_url_for_raw_file_from_git_shape (self : Napp)
    (git branch author name : string) :
  Napp_dict self !! "git" = Some (PStr git) →
  Napp_dict self !! "branch" = Some (PStr branch) →
  Napp_dict self !! "author" = Some (PStr author) →
  Napp_dict self !! "name" = Some (PStr name) →
  let path := "raw/" +:+ branch +:+ "/" +:+ author +:+ "/" +:+ name +:+ "/" in
  (∀ repo, git = repo +:+ ".git" ∨ git = repo +:+ ".git/" →
     Napp_url_for_raw_file_from_git self = Return (repo +:+ "/" +:+ path))
  ∧ (has_substring ".git" git = false →
       Napp_url_for_raw_file_from_git self = Return (git +:+ path))
  ∧ (∀ v, is_text v = false →
       Napp_url_for_raw_file_from_git (Napp_setattr self "git" v) = Raise TypeError).
Proof.
  intros Hg Hb Ha Hn path.
  assert (Napp_url_for_raw_file_from_git self
          = Return (re_sub_git_suffix git +:+ path)) as Hurl.
  { unfold Napp_url_for_raw_file_from_git, Napp_getattr.
    rewrite Hg, Hb, Ha, Hn. cbn [from_option mbind result_bind re_sub_git str_add add_str].
    unfold path. f_equal. by rewrite !string_app_assoc. }
  split; [|split].
  - intros repo [-> | ->]; rewrite Hurl; f_equal.
    + by rewrite re_sub_git_suffix_git, !string_app_assoc.
    + by rewrite re_sub_git_suffix_git_slash, !string_app_assoc.
  - intros Hnone. by rewrite Hurl, re_sub_git_suffix_none.
  - intros v Hv. unfold Napp_url_for_raw_file_from_git, Napp_getattr, Napp_setattr.
    cbn [Napp_dict]. rewrite lookup_insert_eq. by destruct v.
Qed.

(** One turn of the loop on a key whose value needs no [eval]. *)
Lemma populate_key_plain self attrs key type :
  key ≠ "user" →
  (type = "array" →
     key ∈ Napp_required
     ∧ (attrs !! key = None ∨ ∃ l, attrs !! key = Some (PList l))) →
  populate_key ext (self, attrs) (key, type) =
    if bool_decide (key ∈ Napp_required) && bool_decide (attrs !! key = None)
    then Raise InvalidNappMetaData
    else Return (Napp_setattr self key (default PNone (attrs !! key)), attrs).
Proof.
  intros Hne Harr. unfold populate_key. rewrite bool_decide_eq_true_2 by done.
  destruct (bool_decide (key ∈ Napp_required) && bool_decide (attrs !! key = None))
    eqn:Hc; [done|].
  destruct (String.eqb_spec type "array") as [->|Ht]; [|done].
  destruct (Harr eq_refl) as [Hr [Hnone|[l Hl]]].
  - rewrite bool_decide_eq_true_2, bool_decide_eq_true_2 in Hc by done. done.
  - rewrite Hl. cbn. by rewrite Hl.
Qed.

(** The loop of [_populate_from_dict] when a required key is missing and
    every array that is there is a list already. *)
Lemma foldM_populate_key_missing entries : ∀ self attrs,
  (∀ k, (k, "array") ∈ entries →
     k ∈ Napp_required ∧ (attrs !! k = None ∨ ∃ l, attrs !! k = Some (PList l))) →
  (∃ k t, (k, t) ∈ entries ∧ k ≠ "user" ∧ k ∈ Napp_required ∧ attrs !! k = None) →
  foldM (populate_key ext) (self, attrs) entries = Raise InvalidNappMetaData.
Proof.
  induction entries as [|[key type] rest IH];
    intros self attrs Harr (k & t & Hin & Hku & Hreq & Hk).
  { by apply elem_of_nil in Hin. }
  cbn [foldM].
  assert (∀ self', foldM (populate_key ext) (self', attrs) rest
                   = Raise InvalidNappMetaData ∨ (k, t) = (key, type)) as Hrest.
  { intros self'. apply elem_of_cons in Hin as [Hin|Hin]; [by right|left].
    apply IH; [|by exists k, t].
    intros k' Hk'. apply Harr. by apply elem_of_cons; right. }
  destruct (decide (key = "user")) as [->|Hne].
  { rewrite populate_key_user. cbn. by destruct (Hrest self) as [?|[= -> _]]. }
  rewrite populate_key_plain; [|done|].
  2: { intros ->. apply Harr. by apply elem_of_cons; left. }
  destruct (bool_decide (key ∈ Napp_required) && bool_decide (attrs !! key = None))
    eqn:Hc; [done|].
  cbn [mbind result_bind].
  destruct (Hrest (Napp_setattr self key (default PNone (attrs !! key))))
    as [->|[= -> ->]]; [done|].
  by rewrite bool_decide_eq_true_2, bool_decide_eq_true_2 in Hc.
Qed.

(** X9. [_populate_from_dict] asks for every required key: when one is
    missing (and the arrays that are there are lists), it raises
    InvalidNappMetaData, and so do [Napp(...)] and [new_napp_from_dict],
    which then has written nothing. *)
Theorem Napp_populate_missing_key (self : Napp) (attributes : gmap string pyval)
    (k : string) (usr : User) (w : world) :
  k ∈ Napp_required → attributes !! k = None →
  (∀ a, a ∈ ["ofversion"; "tags"; "dependencies"] →
     attributes !! a = None ∨ ∃ l, attributes !! a = Some (PList l)) →
  Napp_populate_from_dict ext self attributes = Raise InvalidNappMetaData
  ∧ Napp_init ext (Some attributes) None w = (Raise InvalidNappMetaData, w)
  ∧ Napp_new_napp_from_dict ext attributes (Some (inl usr)) w
    = (Raise InvalidNappMetaData, w).
Proof.
  intros Hreq Hk Harr.
  assert (∀ self0, Napp_populate_from_dict ext self0 attributes
                   = Raise InvalidNappMetaData) as Hpop.
  { intros self0. rewrite Napp_populate_from_dict_loop.
    rewrite foldM_populate_key_missing; [done| |].
    - intros a Ha. destruct (Napp_schema_array a Ha) as [_ _].
      apply list_elem_of_In in Ha. cbn in Ha.
      repeat (destruct Ha as [Ha|Ha];
              [inversion Ha; subst; (split; [in_list|apply Harr; in_list])|]).
      done.
    - destruct (Napp_required_schema k Hreq) as (t & Ht & Hne). by exists k, t. }
  split; [apply Hpop|]. split.
  - unfold Napp_init. rewrite M_bind_unfold. cbn [mret M_ret]. unfold lift.
    by rewrite Hpop.
  - unfold Napp_new_napp_from_dict, Napp_init.
    rewrite !M_bind_unfold. cbn [mret M_ret]. unfold lift. by rewrite Hpop.
Qed.

Lemma Napp_init_none attributes w :
  Napp_init ext (Some attributes) None w
  = (Napp_populate_from_dict ext (mk_napp None ∅) attributes, w).
Proof. done. Qed.


(** X11. [Napp.save], where Redis holds neither index key as another kind
    of value, puts the key in both indices before it renders the readme: when the rendering fails, [save] raises with the indices written
    and no record stored, and in a registry that was empty [Napp.all] then
    raises InvalidNappMetaData, the napp's key holding no value of any
    kind. *)
Theorem Napp_save_not_atomic (self : Napp) (key : string) (author : pyval)
    (e : exn) (w : world) :
  Napp_redis_key self = Return key →
  Napp_getattr self "author" = Return author →
  Napp_as_dict ext self = Raise e →
  set_key_free (con w) "napps" = true →
  set_key_free (con w) ("user:" +:+ py_str author +:+ ":napps") = true →
  ∃ w',
    Napp_save ext self w = (Raise e, w')
    ∧ key ∈ default ∅ (sets (con w') !! "napps")
    ∧ key ∈ default ∅ (sets (con w') !! ("user:" +:+ py_str author +:+ ":napps"))
    ∧ hashes (con w') = hashes (con w)
    ∧ (sets (con w) !! "napps" = None → hashes (con w) !! key = None →
       hash_key_free (con w) key = true →
       Napp_all ext w' = (Raise InvalidNappMetaData, w')).
Proof.
  intros Hk Ha Hd _ _. unfold Napp_save. rewrite Hk, Ha, Hd.
  eexists. split; [done|]. cbn [con hashes sets].
  assert ("user:" +:+ py_str author +:+ ":napps" ≠ "napps") as Hne by done.
  split; [|split; [|split]].
  - rewrite lookup_insert_ne, lookup_insert_eq by done. set_solver.
  - rewrite lookup_insert_eq. set_solver.
  - done.
  - intros Hs Hh _. unfold Napp_all. rewrite M_bind_unfold. unfold smembers.
    cbn [con sets]. rewrite lookup_insert_ne, lookup_insert_eq, Hs by done.
    cbn [default from_option id]. rewrite (right_id_L ∅ (∪)), elements_singleton.
    cbn [comprehension]. rewrite !M_bind_unfold, hgetall_eq, Napp_init_none.
    cbn [con hashes]. rewrite Hh. cbn [default from_option id].
    by rewrite fmap_empty.
Qed.
End NappExtras.

Lemma Napp_url_for_raw_file_from_git_shape_witness :
  Napp_url_for_raw_file_from_git bare_repo_napp
    = Return "https://github.com/alice/nappsraw/master/alice/of_l2ls/".
Proof.
  destruct (Napp_url_for_raw_file_from_git_shape bare_repo_napp
              "https://github.com/alice/napps" "master" "alice" "of_l2ls"
              eq_refl eq_refl eq_refl eq_refl) as (_ & H & _).
  apply H. reflexivity.
Defined.

Lemma Napp_populate_missing_key_witness :
  Napp_populate_from_dict sample_ext (mk_napp None ∅) (delete "license" of_l2ls)
    = Raise InvalidNappMetaData
  ∧ Napp_init sample_ext (Some (delete "license" of_l2ls)) None empty_world
    = (Raise InvalidNappMetaData, empty_world)
  ∧ Napp_new_napp_from_dict sample_ext (delete "license" of_l2ls) (Some (inl alice))
      empty_world
    = (Raise InvalidNappMetaData, empty_world).
Proof.
  apply (Napp_populate_missing_key sample_ext (mk_napp None ∅)
           (delete "license" of_l2ls) "license" alice empty_world).
  - in_list.
  - reflexivity.
  - intros a Ha. apply list_elem_of_In in Ha. cbn in Ha.
    repeat (destruct Ha as [<-|Ha]; [right; eexists; reflexivity|]). done.
Defined.

Lemma Napp_save_not_atomic_witness :
  ∃ w',
    Napp_save strict_ext (of_l2ls_napp None) empty_world = (Raise AttributeError, w')
    ∧ "napp:alice/of_l2ls" ∈ default ∅ (sets (con w') !! "napps")
    ∧ "napp:alice/of_l2ls"
        ∈ default ∅ (sets (con w') !! ("user:" +:+ py_str (PStr "alice") +:+ ":napps"))
    ∧ hashes (con w') = hashes (con empty_world)
    ∧ (sets (con empty_world) !! "napps" = None →
       hashes (con empty_world) !! "napp:alice/of_l2ls" = None →
       hash_key_free (con empty_world) "napp:alice/of_l2ls" = true →
       Napp_all strict_ext w' = (Raise InvalidNappMetaData, w')).
Proof.
  apply (Napp_save_not_atomic strict_ext (of_l2ls_napp None) "napp:alice/of_l2ls"
           (PStr "alice") AttributeError empty_world); reflexivity.
Defined.

(** ** Confirming twice *)

Lemma strptime_valid s d : strptime s = Return d → dt_valid d = true.
Proof.
  unfold strptime.
  match goal with |- context [match ?p with Some _ => _ | None => _ end] =>
    destruct p as [d0|] end; [|done].
  destruct (dt_valid d0) eqn:E; [|done]. by intros [= <-].
Qed.

Section SingleUse.
Context (ext : Collaborators).

(** X7. A confirmation is good for one use. After [confirm_user] answered
    200, the same name and token presented at any instant later than the
    token's [created_at] are answered 400, with nothing written; unless the
    token was created on a whole second, in which case the second request
    raises ValueError. *)
Theorem confirm_user_single_use (now later : datetime) (name token : string)
    (usr : User) (t : Token) (w : world) :
  wf_store (con w) →
  stored_user ext (con w) (PStr name) = Return usr →
  current_token ext now (con w) usr = Return (Some t) →
  hash t = token →
  dt_micros (created_at t) < dt_micros later →
  ∃ w',
    confirm_user ext now name token w = (Return (mk_response "" 200), w')
    ∧ (microsecond (created_at t) ≠ 0 →
       confirm_user ext later name token w'
       = (Return (mk_response "Invalid token" 400), w'))
    ∧ (microsecond (created_at t) = 0 →
       confirm_user ext later name token w' = (Raise ValueError, w')).
Proof.
  intros Hwf Hu Ht Hh Hlater.
  destruct (stored_user_wf ext _ _ _ Hwf Hu) as (Hn & b & Hp & Hb).
  destruct (current_token_wf ext now _ _ _ Hwf Ht)
    as (rest & rec & cs & n & es & u0 & Hl & Hr & Hne & F1 & F2 & F3 & F4 & Hu0
        & F5 & F6 & Heq & Hv).
  exists (confirmed_world usr t w). split.
  { rewrite confirm_user_cases, Hu, Ht by done.
    apply String.eqb_eq in Hh as ->. by apply (confirm_accepted_ok ext now name). }
  set (user1 := set_enabled usr (PBool true)).
  set (w1 := after_user_save user1 (PBytes b) w).
  set (t0 := mk_token (hash t) (created_at t) (user t) 0).
  assert (con (confirmed_world usr t w) = con (Token_save t0 w1).2) as Hcon.
  { unfold confirmed_world. fold user1.
    rewrite (User_save_eq user1 (PBytes b) w), Token_invalidate_eq; [done|done|].
    cbn. by apply negb_true_iff, String.eqb_neq. }
  assert (wf_store (con w1)) as Hwf1 by (by apply (User_save_wf user1 b name)).
  assert (wf_store (con (Token_save t0 w1).2)) as Hwf2 by (by apply Token_save_wf).
  assert (∀ m um, stored_user ext (con w) (PStr m) = Return um →
            ∃ um', stored_user ext (con (Token_save t0 w1).2) (PStr m) = Return um'
                   ∧ username um' = username um) as Hkeep.
  { intros m um Hm.
    destruct (stored_user_after_save ext user1 b name w m um) as (um' & Hm' & Hmu & _);
      [done|done|done|reflexivity|done|].
    exists um'. split; [|done]. etrans; [|exact Hm'].
    apply stored_user_lookup. rewrite Token_save_eq. cbn [snd con hashes py_str].
    rewrite lookup_insert_ne; [done|]. apply token_key_not_user. }
  destruct (Hkeep name usr Hu) as (usr' & Husr' & Hname').
  destruct (Hkeep n u0 Hu0) as (u0' & Hu0' & _).
  assert (lists (con (Token_save t0 w1).2) !! (User_redis_key usr' +:+ ":tokens")
          = Some (Token_redis_key t :: rest)) as Hl'.
  { rewrite Token_save_eq. cbn [snd con lists]. unfold w1, after_user_save.
    cbn [con lists]. unfold User_redis_key. rewrite Hname'. exact Hl. }
  assert (hashes (con (Token_save t0 w1).2) !! Token_redis_key t
          = Some (token_record t0 (default ∅ (hashes (con w1) !! Token_redis_key t))))
    as Hrec.
  { rewrite Token_save_eq. cbn [snd con hashes]. apply lookup_insert_eq. }
  destruct (token_record_fields t0 (default ∅ (hashes (con w1) !! Token_redis_key t)))
    as (G1 & G2 & G3 & G4).
  assert (username (user t) = PStr n) as Hun.
  { rewrite Heq. cbn. by destruct (stored_user_wf ext _ _ _ Hwf Hu0) as [-> _]. }
  apply strptime_valid in F3 as Hvalid.
  assert (wf_store (con (confirmed_world usr t w))) as Hwf' by (by rewrite Hcon).
  split.
  - intros Hus. rewrite confirm_user_cases by done. rewrite Hcon, Husr'.
    assert (stored_token ext later (con (Token_save t0 w1).2)
              (default ∅ (hashes (con (Token_save t0 w1).2) !! Token_redis_key t))
            = Return (mk_token (hash t) (created_at t) u0' 0)) as Hst.
    { rewrite Hrec. cbn [default from_option id].
      eapply stored_token_intro; try eassumption.
      - rewrite strptime_dt_str by done. cbn [created_at t0].
        by apply Z.eqb_neq in Hus as ->.
      - cbn [user t0]. by rewrite Hun.
      - done. }
    rewrite (current_token_intro ext later _ usr' _ rest _ Hl' Hst).
    unfold Token_is_valid, Token_expires_at, utcnow. cbn [created_at expiration_time].
    rewrite (proj2 (Z.leb_gt _ _)) by lia. done.
  - intros Hus. unfold confirm_user, try_except.
    rewrite M_bind_unfold, User_get_pure, Hcon, Husr'.
    rewrite M_bind_unfold, User_token_head, Hcon, Hl'. cbn [default from_option id].
    rewrite Hrec. cbn [default from_option id].
    erewrite Token_from_dict_unreadable; [done|exact G1|exact G2|].
    rewrite strptime_dt_str by done. cbn [created_at t0]. by rewrite Hus.
Qed.
End SingleUse.

Lemma confirm_user_single_use_witness :
  ∃ w',
    confirm_user sample_ext new_year_noon "alice" "h0" pending_world
      = (Return (mk_response "" 200), w')
    ∧ (microsecond (created_at (mk_token "h0" new_year alice_stored 86400)) ≠ 0 →
       confirm_user sample_ext new_year_noon "alice" "h0" w'
       = (Return (mk_response "Invalid token" 400), w'))
    ∧ (microsecond (created_at (mk_token "h0" new_year alice_stored 86400)) = 0 →
       confirm_user sample_ext new_year_noon "alice" "h0" w' = (Raise ValueError, w')).
Proof.
  apply (confirm_user_single_use sample_ext new_year_noon new_year_noon "alice" "h0"
           alice_stored (mk_token "h0" new_year alice_stored 86400) pending_world
           pending_world_wf); reflexivity.
Defined.

(** ** Listings *)

Section Listings.
Context (ext : Collaborators).

(** A comprehension over reads: the store stays as it was, and each
    element is what its read gave. *)
Lemma comprehension_pure {A B} (f : A → M B) (g : Redis → A → result B) l w :
  (∀ a w0, f a w0 = (g (con w0) a, w0)) →
  comprehension f l w = (mapM (g (con w)) l, w).
Proof.
  intros Hf. induction l as [|a l IH]; [done|].
  cbn [comprehension mapM]. rewrite M_bind_unfold, Hf.
  destruct (g (con w) a) as [b|]; [|done].
  rewrite M_bind_unfold, IH. by destruct (mapM (g (con w)) l).
Qed.

Lemma mapM_result_Forall2 {A B} (g : A → result B) l bs :
  mapM g l = Return bs → Forall2 (λ a b, g a = Return b) l bs.
Proof.
  revert bs. induction l as [|a l IH]; intros bs.
  { intros [= <-]. constructor. }
  cbn [mapM]. destruct (g a) as [b|] eqn:Ea; [|done]. cbn.
  destruct (mapM g l) as [bs'|]; [|done]. cbn. intros [= <-].
  constructor; [done|]. by apply IH.
Qed.

Lemma User_all_eq w :
  User_all ext w =
    (mapM (λ key, stored_user ext (con w) (PStr (re_sub_user_prefix key)))
          (elements (default ∅ (sets (con w) !! "users"))), w).
Proof.
  unfold User_all. rewrite M_bind_unfold. unfold smembers.
  apply (comprehension_pure _ (λ c key, stored_user ext c (PStr (re_sub_user_prefix key)))).
  intros a w0. apply User_get_pure.
Qed.

Lemma User_as_dict_public u un d :
  username u = PStr un → User_as_dict u true false = Return d →
  d !! "password" = None ∧ d !! "username" = Some (PStr un).
Proof.
  unfold User_as_dict, User_dict. intros Hn.
  destruct (password u) as [pw|]; cbn.
  - rewrite lookup_insert_eq. cbn. intros [= <-]. rewrite Hn.
    split; by simplify_map_eq.
  - rewrite lookup_insert_ne by done. by simplify_map_eq.
Qed.

Lemma get_users_views users : ∀ acc views,
  foldM (λ (acc : gmap string (gmap string pyval)) (user : User),
           d ← User_as_dict user true false;
           Return (<[py_str (username user) := d]> acc)) acc users = Return views →
  Forall (λ u, ∃ un, username u = PStr un) users →
  (∀ name d, acc !! name = Some d →
     d !! "password" = None ∧ d !! "username" = Some (PStr name)) →
  ∀ name d, views !! name = Some d →
    d !! "password" = None ∧ d !! "username" = Some (PStr name).
Proof.
  induction users as [|u users IH]; intros acc views Hf Hall Hacc.
  { cbn in Hf. by injection Hf as <-. }
  cbn [foldM] in Hf. apply Forall_cons in Hall as [[un Hun] Hall].
  destruct (User_as_dict u true false) as [d0|] eqn:Hd; [|done]. cbn in Hf.
  apply (IH _ _ Hf Hall). intros name d. rewrite Hun. cbn [py_str].
  destruct (decide (name = un)) as [->|Hne].
  - rewrite lookup_insert_eq. intros [= <-]. by apply (User_as_dict_public u).
  - rewrite lookup_insert_ne by done. apply Hacc.
Qed.

Lemma stored_users_text c keys users :
  Forall2 (λ key u, stored_user ext c (PStr (re_sub_user_prefix key)) = Return u)
          keys users →
  Forall (λ u, ∃ un, username u = PStr un) users.
Proof.
  induction 1 as [|key u keys us Hk _ IH]; constructor; [|done].
  apply stored_user_inv in Hk
    as (? & un & ? & ? & ? & ? & ? & ? & ? & ? & ? & ? & _ & _ & _ & _ & _ & _ & _
        & _ & _ & _ & _ & _ & ->).
  by exists un.
Qed.

(** X3. [User.all] reads one user for each key of the [users] index, under
    the name the key gives once a leading [user:] is taken off, and writes
    nothing; [get_users], when it answers, answers 200 with one view for each
    name, and no view shows a password. *)
Theorem get_users_hides_passwords (w : world) :
  (User_all ext w).2 = w
  ∧ (∀ users, (User_all ext w).1 = Return users →
       Forall2 (λ key u, stored_user ext (con w) (PStr (re_sub_user_prefix key)) = Return u)
               (elements (default ∅ (sets (con w) !! "users"))) users)
  ∧ (∀ views status w',
       get_users ext w = (Return (views, status), w') →
       w' = w ∧ status = 200
       ∧ ∀ name d, views !! name = Some d →
           d !! "password" = None ∧ d !! "username" = Some (PStr name)).
Proof.
  rewrite User_all_eq. split; [done|]. split.
  { intros users Hu. by apply mapM_result_Forall2 in Hu. }
  intros views status w'. unfold get_users. rewrite M_bind_unfold, User_all_eq.
  destruct (mapM _ _) as [users|] eqn:Hu; [|done].
  rewrite M_bind_unfold. unfold lift.
  destruct (foldM _ _ _) as [views0|] eqn:Hf; [|done].
  intros [= <- <- <-]. split; [done|]. split; [done|].
  apply (get_users_views users ∅ views0 Hf); [|done].
  apply mapM_result_Forall2 in Hu. by eapply stored_users_text.
Qed.

(** X12. [Napp.as_dict] always has the schema's thirteen keys and no other;
    an attribute the napp lacks shows as [''], or as [[]] for an array. *)
Theorem Napp_as_dict_keys (napp : Napp) (data : gmap string pyval) :
  Napp_as_dict ext napp = Return data →
  (∀ k, is_Some (data !! k) ↔ k ∈ Napp_schema.*1)
  ∧ (∀ k ty, (k, ty) ∈ Napp_schema → k ≠ "user" → k ≠ "readme" →
       Napp_dict napp !! k = None →
       data !! k = Some (if String.eqb ty "array" then PList [] else PStr "")).
Proof.
  unfold Napp_as_dict, Napp_getattr.
  destruct (Napp_dict napp !! "author") as [author|] eqn:Ha; [|done].
  cbn [from_option mbind result_bind].
  destruct (Napp_readme_html ext napp) as [html|]; [|done].
  intros [= <-]. split.
  - intros k. rewrite list_elem_of_In. cbn.
    rewrite !lookup_insert_is_Some', lookup_empty, is_Some_alt. tauto.
  - intros k ty Hk Hu Hr Hnone. rewrite lookup_insert_ne by done.
    rewrite lookup_insert_ne by done.
    apply list_elem_of_In in Hk. cbn in Hk.
    repeat (destruct Hk as [[= <- <-]|Hk];
            [cbn; rewrite ?Hnone; by simplify_map_eq|]).
    done.
Qed.
End Listings.

Lemma Napp_as_dict_keys_witness :
  ∃ data,
    Napp_as_dict sample_ext of_lldp_napp = Return data
    ∧ (∀ k, is_Some (data !! k) ↔ k ∈ Napp_schema.*1)
    ∧ (∀ k ty, (k, ty) ∈ Napp_schema → k ≠ "user" → k ≠ "readme" →
         Napp_dict of_lldp_napp !! k = None →
         data !! k = Some (if String.eqb ty "array" then PList [] else PStr "")).
Proof.
  eexists. split; [reflexivity|].
  apply (Napp_as_dict_keys sample_ext of_lldp_napp). reflexivity.
Defined.

(** Two users saved: both are listed, neither with a password. *)
Example get_users_two :
  ∃ views, (get_users sample_ext two_user_world).1 = Return (views, 200)
           ∧ dom views = {[ "alice"; "carol" ]}.
Proof. eexists. split; [reflexivity|]. apply leibniz_equiv. set_solver. Qed.

(** ** A token created on a whole second, at the head of the list *)

(** Whatever stops the head of the list from being read stops
    [User.token]. *)
Lemma User_token_head_raises ext now (u : User) (key : string)
    (older : list string) (e : exn) (w : world) :
  lists (con w) !! (User_redis_key u +:+ ":tokens") = Some (key :: older) →
  Token_from_dict ext now (default ∅ (hashes (con w) !! key)) w = (Raise e, w) →
  User_token ext now u w = (Raise e, w).
Proof.
  intros Hl Hr. rewrite User_token_head, Hl. cbn [default from_option id].
  by rewrite Hr.
Qed.

(** C3.  [User.token] for a user whose list is headed by a token that was
    created on a whole second and is stored as [Token.save] writes it: the
    lookup raises ValueError, whatever the instant, so also while the
    token is valid; it answers neither the token nor None. *)
Theorem User_token_whole_second ext (now : datetime) (u : User) (t : Token)
    (old : gmap string string) (older : list string) (w : world) :
  lists (con w) !! (User_redis_key u +:+ ":tokens") = Some (Token_redis_key t :: older) →
  hashes (con w) !! Token_redis_key t = Some (token_record t old) →
  dt_valid (created_at t) = true → microsecond (created_at t) = 0 →
  User_token ext now u w = (Raise ValueError, w).
Proof.
  intros Hl Hr Hv Hus.
  destruct (token_record_fields t old) as (G1 & G2 & _).
  apply (User_token_head_raises ext now u (Token_redis_key t) older); [done|].
  rewrite Hr. cbn [default from_option id].
  apply (Token_from_dict_unreadable ext now _ _ _ w G1 G2).
  rewrite strptime_dt_str by done. by rewrite Hus.
Qed.

(** Alice registered on the stroke of midnight; at noon her token has half
    a day left. *)
Lemma User_token_whole_second_witness :
  (User_create_token sample_ext whole_second alice 86400
     (User_save alice empty_world).2).1 = Return whole_second_token
  ∧ Token_is_valid new_year_noon whole_second_token = true
  ∧ User_token sample_ext new_year_noon alice
      (User_create_token sample_ext whole_second alice 86400
         (User_save alice empty_world).2).2
    = (Raise ValueError,
       (User_create_token sample_ext whole_second alice 86400
          (User_save alice empty_world).2).2).
Proof.
  split; [reflexivity|]. split; [reflexivity|].
  apply (User_token_whole_second sample_ext new_year_noon alice whole_second_token
           ∅ []); reflexivity.
Defined.

(** C1.  A user who exists and whose current token was created on a whole
    second: [confirm_user] with that token's hash raises ValueError at the
    first [user.token], whatever the instant, so also while the token is
    valid.  It answers neither 200 nor 400, the user is not enabled and
    nothing is written. *)
Theorem confirm_user_whole_second_token ext (now : datetime) (name : string)
    (usr : User) (t : Token) (old : gmap string string) (older : list string)
    (w : world) :
  stored_user ext (con w) (PStr name) = Return usr →
  lists (con w) !! (User_redis_key usr +:+ ":tokens")
    = Some (Token_redis_key t :: older) →
  hashes (con w) !! Token_redis_key t = Some (token_record t old) →
  dt_valid (created_at t) = true → microsecond (created_at t) = 0 →
  confirm_user ext now name (hash t) w = (Raise ValueError, w).
Proof.
  intros Hu Hl Hr Hv Hus. unfold confirm_user, try_except.
  rewrite M_bind_unfold, User_get_pure, Hu.
  destruct (token_record_fields t old) as (G1 & G2 & _).
  rewrite M_bind_unfold.
  rewrite (User_token_head_raises ext now usr (Token_redis_key t) older ValueError w);
    [done|done|].
  rewrite Hr. cbn [default from_option id].
  apply (Token_from_dict_unreadable ext now _ _ _ w G1 G2).
  rewrite strptime_dt_str by done. by rewrite Hus.
Qed.

Lemma confirm_user_whole_second_token_witness :
  stored_user sample_ext
    (con (User_create_token sample_ext whole_second alice 86400
            (User_save alice empty_world).2).2) (PStr "alice")
    = Return alice_stored
  ∧ Token_is_valid new_year_noon whole_second_token = true
  ∧ hash whole_second_token = "h0"
  ∧ confirm_user sample_ext new_year_noon "alice" "h0"
      (User_create_token sample_ext whole_second alice 86400
         (User_save alice empty_world).2).2
    = (Raise ValueError,
       (User_create_token sample_ext whole_second alice 86400
          (User_save alice empty_world).2).2).
Proof.
  split; [reflexivity|]. split; [reflexivity|]. split; [reflexivity|].
  apply (confirm_user_whole_second_token sample_ext new_year_noon "alice"
           alice_stored whole_second_token ∅ []); reflexivity.
Defined.
